(** * scripts/analyze_and_upload.js: extraction and Poisson estimation

    A shallow embedding of the event normalizer
    ([extractEarthquakeEvents]), of the frequency/probability estimator
    ([analyzeEarthquakeData]) and of the orchestration in [main], with the
    properties of the specification stated over them.

    Conventions.
    - A JavaScript string is its sequence of UTF-16 code units
      ([jsstring]); [substring], [includes], [replace] and [trim] work on
      code units, exactly as in the language.
    - A JavaScript number is an IEEE 754 double ([float]); the arithmetic
      of the estimator is the arithmetic of doubles.  [Math.exp] is the
      engine's, a parameter, but for the values the language fixes.
      Counts and millisecond time stamps are integers.
    - A row of the frequency table is a plain object: reading a key it
      does not own finds the members of [Object.prototype].
    - [xml2js] delivers every child element as an array, every leaf as a
      string; an absent member is [None] ([undefined]). *)

From Stdlib Require Import PrimFloat.
From Stdlib Require SpecFloat FloatOps FloatAxioms.
From Stdlib Require Import ZArith NArith List String Ascii Reals Lra Lia.
From stdpp Require Import gmap list pretty.

(* ===================================================================== *)
(** ** JavaScript strings *)
(* ===================================================================== *)

Module JSString.

(** A string value: UTF-16 code units. *)
Abbreviation jsstring := (list N).

(** Code units of one decoded code point (a surrogate pair above the
    basic plane). *)
Definition units_of_code_point (cp : N) : jsstring :=
  if (cp <? 0x10000)%N then [cp]
  else [(0xD800 + (cp - 0x10000) / 0x400)%N;
        (0xDC00 + (cp - 0x10000) mod 0x400)%N].

(** The source file is UTF-8; [decode] reads its bytes, [pending] being
    the bits gathered so far and [need] the continuation bytes still
    expected. *)
Fixpoint decode (pending : N) (need : nat) (bs : list N) : jsstring :=
  match bs with
  | [] => []
  | b :: bs' =>
      match need with
      | O =>
          if (b <? 0x80)%N then b :: decode 0 0 bs'
          else if (b <? 0xE0)%N then decode (N.land b 0x1F) 1 bs'
          else if (b <? 0xF0)%N then decode (N.land b 0x0F) 2 bs'
          else decode (N.land b 0x07) 3 bs'
      | S n =>
          let cp := (pending * 64 + N.land b 0x3F)%N in
          match n with
          | O => units_of_code_point cp ++ decode 0 0 bs'
          | S _ => decode cp n bs'
          end
      end
  end.

Fixpoint bytes_of (s : string) : list N :=
  match s with
  | EmptyString => []
  | String a s' => N_of_ascii a :: bytes_of s'
  end.

(** A string literal of the source, as the value the engine holds. *)
Definition lit (s : string) : jsstring := decode 0 0 (bytes_of s).

(** [s.substring(0, n)] *)
Definition substring0 (n : nat) (s : jsstring) : jsstring := take n s.

(** [pat] is a prefix of [s] *)
Fixpoint starts_with (pat s : jsstring) : bool :=
  match pat, s with
  | [], _ => true
  | _ :: _, [] => false
  | p :: pat', c :: s' => (p =? c)%N && starts_with pat' s'
  end.

(** [s.includes(pat)] *)
Fixpoint includes (pat s : jsstring) : bool :=
  starts_with pat s ||
  match s with
  | [] => false
  | _ :: s' => includes pat s'
  end.

(** [s.replace(pat, rep)] with a string pattern: only the first
    occurrence is replaced ([rep] holds no [$] pattern here). *)
Fixpoint replace (pat rep s : jsstring) : jsstring :=
  if starts_with pat s then rep ++ drop (length pat) s
  else match s with
       | [] => []
       | c :: s' => c :: replace pat rep s'
       end.

(** [s.replaceAll(pat, rep)] for a non-empty pattern. *)
Fixpoint replaceAll_fuel (fuel : nat) (pat rep s : jsstring) : jsstring :=
  match fuel with
  | O => s
  | S fuel' =>
      if starts_with pat s
      then rep ++ replaceAll_fuel fuel' pat rep (drop (length pat) s)
      else match s with
           | [] => []
           | c :: s' => c :: replaceAll_fuel fuel' pat rep s'
           end
  end.

Definition replaceAll (pat rep s : jsstring) : jsstring :=
  replaceAll_fuel (S (length s)) pat rep s.

(** WhiteSpace and LineTerminator code units, the ones [trim] strips. *)
Definition is_space (c : N) : bool :=
  ((0x09 <=? c) && (c <=? 0x0D) || (c =? 0x20) || (c =? 0xA0)
   || (c =? 0x1680) || (0x2000 <=? c) && (c <=? 0x200A)
   || (c =? 0x2028) || (c =? 0x2029) || (c =? 0x202F) || (c =? 0x205F)
   || (c =? 0x3000) || (c =? 0xFEFF))%N.

Fixpoint trimStart (s : jsstring) : jsstring :=
  match s with
  | [] => []
  | c :: s' => if is_space c then trimStart s' else s
  end.

Definition trimEnd (s : jsstring) : jsstring :=
  reverse (trimStart (reverse s)).

(** [s.trim()] *)
Definition trim (s : jsstring) : jsstring := trimEnd (trimStart s).

End JSString.
Import JSString.

(* ===================================================================== *)
(** ** Exceptions inside a [try] block *)
(* ===================================================================== *)

Inductive JSError : Type :=
| TypeError (reading : string)      (* property read on undefined *)
| Error (message : jsstring).       (* [new Error(message)] or a rejection *)

Definition Result (A : Type) : Type := JSError + A.

Definition ret {A} (a : A) : Result A := inr a.
Definition throw {A} (e : JSError) : Result A := inl e.
Definition bind {A B} (m : Result A) (k : A -> Result B) : Result B :=
  match m with
  | inl e => inl e
  | inr a => k a
  end.

Notation "'let!' x ':=' m 'in' k" := (bind m (fun x => k))
  (at level 10, x name, m at level 100, k at level 200).

(** [v.name] or [v[0]] where [v] may be [undefined]: reading a member of
    [undefined] throws a TypeError. *)
Definition member {A B} (name : string) (get : A -> B) (v : option A)
  : Result B :=
  match v with
  | None => throw (TypeError name)
  | Some a => ret (get a)
  end.

(** [arr[0]]: [undefined] on an empty array. *)
Definition index0 {A} (arr : list A) : option A := arr !! 0%nat.

(* ===================================================================== *)
(** ** Data model *)
(* ===================================================================== *)

(** A [Date]: its time value in milliseconds, or an Invalid Date. *)
Inductive Date : Type :=
| ValidDate (ms : Z)
| InvalidDate.

(** The parsed catalog, as [xml2js] builds it. *)
Record ShindoNode := { ShindoValue : option (list jsstring) }.
Record LocationNode := { LocationName : option (list jsstring) }.
Record EarthquakeInfoNode := { OriginTime : option (list jsstring) }.

Record RawEvent := {
  Shindo : option (list ShindoNode);
  Location : option (list LocationNode);
  EarthquakeInfo : option (list EarthquakeInfoNode)
}.

Record DataNode := { Earthquake : option (list RawEvent) }.
Record XmlData := { Data : option DataNode }.

(** The canonical event record. *)
Record EarthquakeEvent := {
  time : Date;
  county : jsstring;
  shindo : jsstring
}.

Definition tai_variant : jsstring := Eval vm_compute in lit "臺".
Definition tai_standard : jsstring := Eval vm_compute in lit "台".
Definition unknown_county : jsstring := Eval vm_compute in lit "未知縣市".
Definition unknown_county_prefix : jsstring := Eval vm_compute in lit "未知縣".

(* ===================================================================== *)
(** ** The event normalizer *)
(* ===================================================================== *)

(** [substring(0, 3)] followed by the glyph unification, as the body of the
    callback computes [county] before the record is built. *)
Definition unifyCounty (location : jsstring) : jsstring :=
  let county := substring0 3 location in
  if includes tai_variant county
  then replace tai_variant tai_standard county
  else county.

(** The [county] field of the emitted record: [county.trim()]. *)
Definition canonicalCounty (location : jsstring) : jsstring :=
  trim (unifyCounty location).

(** [arr.filter(e => e !== null)] *)
Definition filter_non_null {A} (arr : list (option A)) : list A :=
  omap (fun e => e) arr.

Section Normalizer.

(** [new Date(s)] for a string: the engine's date parser. *)
Variable Date_parse : jsstring -> Date.

Definition new_Date (v : option jsstring) : Date :=
  match v with
  | Some s => Date_parse s
  | None => InvalidDate
  end.

(** The [try] block of the callback: [inl] is a thrown exception,
    [inr None] is [return null], [inr (Some ev)] the record.  [!shindo]
    holds for [null], [undefined] and the empty string. *)
Definition tryBlock (event : RawEvent) : Result (option EarthquakeEvent) :=
  let! shindo :=
    match Shindo event with
    | Some arr =>
        let! v := member "ShindoValue" ShindoValue (index0 arr) in
        member "0" index0 v
    | None => ret None
    end in
  let! location :=
    match Location event with
    | Some arr =>
        let! v := member "LocationName" LocationName (index0 arr) in
        member "0" index0 v
    | None => ret (Some unknown_county)
    end in
  let! info := member "0" index0 (EarthquakeInfo event) in
  let! origin := member "OriginTime" OriginTime info in
  let! time := member "0" index0 origin in
  let! county := member "substring" unifyCounty location in
  match shindo with
  | Some (c :: v) =>
      ret (Some {| time := new_Date time;
                   county := trim county;
                   shindo := c :: v |})
  | _ => ret None
  end.

(** The callback of [events.map]: the [catch] warns and returns [null]. *)
Definition mapCallback (event : RawEvent) : option EarthquakeEvent :=
  match tryBlock event with
  | inl _ => None
  | inr r => r
  end.

(** What [console.warn] receives while a node list is processed. *)
Definition warnings (events : list RawEvent) : list JSError :=
  omap (fun event => match tryBlock event with
                     | inl e => Some e
                     | inr _ => None
                     end) events.

(** [xmlData?.Data?.Earthquake] *)
Definition eventList (xmlData : option XmlData) : option (list RawEvent) :=
  match xmlData with
  | Some x =>
      match Data x with
      | Some d => Earthquake d
      | None => None
      end
  | None => None
  end.

(** [events.map(callback).filter(e => e !== null)], or [[]] when the
    list is absent.  The function has no [throw] of its own. *)
Definition extractEarthquakeEvents (xmlData : option XmlData)
  : list EarthquakeEvent :=
  match eventList xmlData with
  | None => []
  | Some events => filter_non_null (mapCallback <$> events)
  end.

(** Warnings logged by one call. *)
Definition extractWarnings (xmlData : option XmlData) : list JSError :=
  match eventList xmlData with
  | None => []
  | Some events => warnings events
  end.

End Normalizer.

(* ===================================================================== *)
(** ** JavaScript numbers *)
(* ===================================================================== *)

Module JSNumber.

(** The Number value of a mathematical integer: the nearest double, the
    integer itself below 2^53 (so for every time value of a Date and every
    count). *)
Definition Z2F (z : Z) : float :=
  FloatOps.SF2Prim
    (SpecFloat.binary_normalize FloatOps.prec FloatOps.emax z 0 false).

(** [Math.round]: the integer nearest to [x], the one towards +infinity
    when two are as near; [-0] for [x] in [[-0.5, 0)]; NaN, the infinities
    and the zeros are returned as they are.  The double [x] is [m * 2^e]
    with integers [m] and [e]; with [e >= 0] it is an integer already. *)
Definition Math_round (x : float) : float :=
  match FloatOps.Prim2SF x with
  | SpecFloat.S754_finite s m e =>
      if (0 <=? e)%Z then x
      else
        let n := if s then Z.neg m else Z.pos m in
        let r := ((2 * n + 2 ^ (- e)) / 2 ^ (1 - e))%Z in
        if (r =? 0)%Z && s then (- 0)%float else Z2F r
  | _ => x
  end.

End JSNumber.
Import JSNumber.

(* ===================================================================== *)
(** ** Plain objects used as dictionaries *)
(* ===================================================================== *)

(** What a row of the frequency table can hold: a count, or the string
    that [+ 1] makes of a value that is not a number. *)
Inductive JSValue : Type :=
| Num (n : Z)
| Str (s : jsstring).

(** The members a plain object inherits from [Object.prototype]: eleven
    built-in functions, each given with the name its source text shows,
    and the accessor [__proto__]. *)
Definition inheritedFunctions : list (jsstring * jsstring) :=
  Eval vm_compute in
  [ (lit "constructor", lit "Object");
    (lit "__defineGetter__", lit "__defineGetter__");
    (lit "__defineSetter__", lit "__defineSetter__");
    (lit "hasOwnProperty", lit "hasOwnProperty");
    (lit "__lookupGetter__", lit "__lookupGetter__");
    (lit "__lookupSetter__", lit "__lookupSetter__");
    (lit "isPrototypeOf", lit "isPrototypeOf");
    (lit "propertyIsEnumerable", lit "propertyIsEnumerable");
    (lit "toString", lit "toString");
    (lit "valueOf", lit "valueOf");
    (lit "toLocaleString", lit "toLocaleString") ].

Definition proto_key : jsstring := Eval vm_compute in lit "__proto__".

(** The function found under [key] on [Object.prototype], by its name. *)
Fixpoint assoc (key : jsstring) (table : list (jsstring * jsstring))
  : option jsstring :=
  match table with
  | [] => None
  | (k, v) :: table' => if decide (k = key) then Some v else assoc key table'
  end.

Definition inheritedFunction (key : jsstring) : option jsstring :=
  assoc key inheritedFunctions.

(** [key] names a member of [Object.prototype]. *)
Definition inheritedMember (key : jsstring) : bool :=
  bool_decide (key = proto_key) || bool_decide (is_Some (inheritedFunction key)).

(** [String(f)] for a built-in function (the text V8 gives). *)
Definition function_prefix : jsstring := Eval vm_compute in lit "function ".
Definition native_suffix : jsstring :=
  Eval vm_compute in lit "() { [native code] }".
Definition nativeSource (name : jsstring) : jsstring :=
  function_prefix ++ name ++ native_suffix.

(** [String(Object.prototype)] *)
Definition object_text : jsstring := Eval vm_compute in lit "[object Object]".

(** The result of reading [row[key]]: an own property, else what the
    prototype has under that key, else [undefined]. *)
Inductive Property : Type :=
| Own (v : JSValue)
| InheritedFunction (name : jsstring)
| PrototypeObject
| Undefined.

Definition getProperty (row : gmap jsstring JSValue) (key : jsstring)
  : Property :=
  match row !! key with
  | Some v => Own v
  | None =>
      if decide (key = proto_key) then PrototypeObject
      else match inheritedFunction key with
           | Some name => InheritedFunction name
           | None => Undefined
           end
  end.

(** [(p || 0) + 1]: [undefined], [0] and the empty string are falsy and
    give [1]; a count gives the next count; a string, a function and the
    prototype object are truthy, and [+] appends ["1"] to their text. *)
Definition orZeroPlusOne (p : Property) : JSValue :=
  match p with
  | Own (Num n) => Num (n + 1)
  | Own (Str s) => if decide (s = []) then Num 1 else Str (s ++ lit "1")
  | InheritedFunction name => Str (nativeSource name ++ lit "1")
  | PrototypeObject => Str (object_text ++ lit "1")
  | Undefined => Num 1
  end.

(** [row[key] = v] for a number or a string [v]: an own property, except
    under [__proto__], whose setter ignores a value that is neither an
    object nor [null]. *)
Definition setProperty (row : gmap jsstring JSValue) (key : jsstring)
    (v : JSValue) : gmap jsstring JSValue :=
  if decide (key = proto_key) then row else <[key := v]> row.

(** The Number a stored value converts to in a division.  A string of the
    table starts with the text of a function, which is no numeric
    literal. *)
Definition ToNumber (v : JSValue) : float :=
  match v with
  | Num n => Z2F n
  | Str _ => nan
  end.

(* ===================================================================== *)
(** ** The frequency/probability estimator *)
(* ===================================================================== *)

(** The callback of [allEvents.reduce]: [e.time < min ? e.time : min].
    The accumulator starts at [now] and is only ever replaced by a date
    that compared smaller, so it is a valid date throughout and is kept as
    its time value; an Invalid Date compares false and leaves it alone. *)
Definition earlier (min : Z) (e : EarthquakeEvent) : Z :=
  match time e with
  | ValidDate t => if (t <? min)%Z then t else min
  | InvalidDate => min
  end.

Definition minHistoryDate (now : Z) (allEvents : list EarthquakeEvent) : Z :=
  foldl earlier now allEvents.

(** [1000 * 60 * 60 * 24 * 365.25], the milliseconds of a year. *)
Definition msPerYear : R := (1000 * 60 * 60 * 24 * 365.25)%R.

(** The length of the window as the exact quotient, which decides the
    test [totalAnalysisYears < 1] of the code: the division of the double
    is correctly rounded, so it is below 1 exactly when the difference is
    below the 31 557 600 000 ms of a year. *)
Definition totalAnalysisYears (now : Z) (allEvents : list EarthquakeEvent)
  : R :=
  ((IZR now - IZR (minHistoryDate now allEvents)) / msPerYear)%R.

(** The same length as the double the code holds and divides by:
    [(now.getTime() - minHistoryDate.getTime())
     / (1000 * 60 * 60 * 24 * 365.25)]. *)
Definition totalAnalysisYearsNumber (now : Z)
    (allEvents : list EarthquakeEvent) : float :=
  ((Z2F now - Z2F (minHistoryDate now allEvents))
   / (1000 * 60 * 60 * 24 * 365.25))%float.

(** One turn of the counting loop:
    [if (!stats[county]) stats[county] = {};
     stats[county][shindo] = (stats[county][shindo] || 0) + 1].
    The rows are plain objects read and written under an arbitrary
    intensity label, hence through [getProperty] and [setProperty].  The
    table itself is keyed by the county, which the normalizer cuts to
    three code units: no member of [Object.prototype] has so short a
    name, and the table is a finite map. *)
Definition countEvent (stats : gmap jsstring (gmap jsstring JSValue))
    (event : EarthquakeEvent) : gmap jsstring (gmap jsstring JSValue) :=
  let county := county event in
  let shindo := shindo event in
  let stats :=
    match stats !! county with
    | None => <[county := ∅]> stats
    | Some _ => stats
    end in
  let row := default ∅ (stats !! county) in
  <[county := setProperty row shindo
                (orZeroPlusOne (getProperty row shindo))]> stats.

Definition buildStats (allEvents : list EarthquakeEvent)
  : gmap jsstring (gmap jsstring JSValue) :=
  foldl countEvent ∅ allEvents.

Definition timeIntervals : list Z := [1; 3; 6; 9]%Z.

(** The template literal [`${t}yr`]. *)
Definition horizonKey (t : Z) : jsstring := lit (pretty t) ++ lit "yr".

Section Estimator.

(** The engine's approximation of the exponential, for an argument that
    is a finite number other than zero. *)
Variable exp_approx : float -> float.

(** [Math.exp]: the language fixes its value at NaN, at the zeros and at
    the infinities, and leaves the rest to the engine. *)
Definition Math_exp (x : float) : float :=
  if is_nan x then nan
  else if is_zero x then 1%float
  else if is_infinity x then (if (x <? 0)%float then 0%float else infinity)
  else exp_approx x.

(** The value stored for one horizon, in the arithmetic of doubles:
    [lambda = count / totalAnalysisYears],
    [probability = 1 - Math.exp(-(lambda * t))],
    [Math.round(probability * 10000) / 100]. *)
Definition percentage (count : JSValue) (totalYears : float) (t : Z) : float :=
  let lambda := (ToNumber count / totalYears)%float in
  let probability := (1 - Math_exp (- (lambda * Z2F t)))%float in
  (Math_round (probability * 10000) / 100)%float.

(** The innermost loop, over [timeIntervals], filling a fresh object. *)
Definition horizons (count : JSValue) (totalYears : float)
  : gmap jsstring float :=
  foldl (fun cell t => <[horizonKey t := percentage count totalYears t]> cell)
        ∅ timeIntervals.

(** [analyzeEarthquakeData], with the clock reading [now] made explicit.
    The two [Object.entries] loops write one entry of a fresh object per
    own entry of the object they walk: a map over the values. *)
Definition analyzeEarthquakeData (now : Z) (allEvents : list EarthquakeEvent)
  : gmap jsstring (gmap jsstring (gmap jsstring float)) :=
  if Rlt_dec (totalAnalysisYears now allEvents) 1 then ∅
  else
    (fun shindoCounts : gmap jsstring JSValue =>
       (fun count =>
          horizons count (totalAnalysisYearsNumber now allEvents))
         <$> shindoCounts)
      <$> buildStats allEvents.

End Estimator.

(* ===================================================================== *)
(** ** Orchestration: [main] and the documents it hands to the store *)
(* ===================================================================== *)

(** The document written to [analysis_results/latest]. *)
Module LatestDoc.
Record t := {
  updateTime : Z;
  updaterName : jsstring;
  updaterUID : jsstring;
  analysisData : gmap jsstring (gmap jsstring (gmap jsstring float));
  disclaimer : jsstring;
  totalEvents : Z
}.
End LatestDoc.

(** An entry added to [update_history]. *)
Module HistoryDoc.
Record t := {
  updateTime : Z;
  updaterName : jsstring;
  updaterUID : jsstring;
  status : jsstring;
  eventCount : option Z;
  errorMessage : option jsstring
}.
End HistoryDoc.

Inductive DbWrite : Type :=
| SetLatest (doc : LatestDoc.t)
| AddHistory (entry : HistoryDoc.t).

(** Everything [main] takes from outside: the environment, the two
    fetches joined by [Promise.all], the clocks, the date parser and the
    exponential of the engine, and the answers of the store. *)
Record World := {
  FIREBASE_SERVICE_ACCOUNT_JSON : option jsstring;
  GITHUB_ACTOR : option jsstring;
  initializeApp : jsstring -> Result unit;
  fetched : Result (option XmlData * option XmlData);
  parseDate : jsstring -> Date;
  Math_exp_approx : float -> float;
  clock : Z;                       (* [new Date()] of the estimator *)
  Timestamp_now : Z;               (* [Timestamp.now()] in the [try] *)
  Timestamp_caught : Z;            (* [Timestamp.now()] in the [catch] *)
  set_latest : LatestDoc.t -> Result unit;
  add_history : HistoryDoc.t -> Result unit
}.

Inductive Exit : Type :=
| Returned                          (* [main] ran to its end *)
| Exit1                             (* [process.exit(1)] *)
| Rejected (e : JSError).           (* an exception left [main] *)

Record Run := {
  writes : list DbWrite;            (* documents handed to the store *)
  exit : Exit
}.

(** [error.message]; the text of a TypeError is the engine's. *)
Definition message (e : JSError) : jsstring :=
  match e with
  | Error m => m
  | TypeError name =>
      lit ("Cannot read properties of undefined (reading '" ++ name ++ "')")
  end.

(** [a || b] on strings: the empty string and [undefined] are falsy. *)
Definition or_else (a : option jsstring) (b : jsstring) : jsstring :=
  match a with
  | Some (c :: s) => c :: s
  | _ => b
  end.

Definition system_uid : jsstring := Eval vm_compute in lit "system-gh-actions".
Definition status_success : jsstring := Eval vm_compute in lit "SUCCESS (Auto)".
Definition status_failed : jsstring := Eval vm_compute in lit "FAILED (Auto)".
Definition no_events_message : jsstring :=
  Eval vm_compute in lit "無法取得任何地震事件資料。".
Definition unknown_error : jsstring := Eval vm_compute in lit "未知錯誤".
Definition default_actor : jsstring :=
  Eval vm_compute in lit "GitHub Actions System Automation".
Definition disclaimer_text : jsstring :=
  Eval vm_compute in lit "本分析結果基於中央氣象署歷史地震目錄，採用簡化的泊松分佈模型推估未來發生機率。本數據由 GitHub Actions 系統排程自動更新，不代表即時或官方預測。對於任何依此資訊所做的決定，開發者不承擔任何責任。".

(** [getFirestoreInstance]: without the key the process exits; a bad key
    makes [JSON.parse] or the SDK throw. *)
Definition getFirestoreInstance (w : World) : Exit + unit :=
  match FIREBASE_SERVICE_ACCOUNT_JSON w with
  | Some (c :: json) =>
      match initializeApp w (c :: json) with
      | inl e => inl (Rejected e)
      | inr _ => inr tt
      end
  | _ => inl Exit1
  end.

(** The [try] block of [main]: the writes attempted, and how it ended. *)
Definition tryMain (w : World) (updaterName : jsstring)
  : list DbWrite * Result unit :=
  match fetched w with
  | inl e => ([], throw e)
  | inr (currentYearXml, historyXml) =>
      let currentEvents := extractEarthquakeEvents (parseDate w) currentYearXml in
      let historyEvents := extractEarthquakeEvents (parseDate w) historyXml in
      let allEvents := currentEvents ++ historyEvents in
      if (length allEvents =? 0)%nat
      then ([], throw (Error no_events_message))
      else
        let analysisData := analyzeEarthquakeData (Math_exp_approx w) (clock w) allEvents in
        let updateTime := Timestamp_now w in
        let latestData :=
          {| LatestDoc.updateTime := updateTime;
             LatestDoc.updaterName := updaterName;
             LatestDoc.updaterUID := system_uid;
             LatestDoc.analysisData := analysisData;
             LatestDoc.disclaimer := disclaimer_text;
             LatestDoc.totalEvents := Z.of_nat (length allEvents) |} in
        match set_latest w latestData with
        | inl e => ([SetLatest latestData], throw e)
        | inr _ =>
            let entry :=
              {| HistoryDoc.updateTime := updateTime;
                 HistoryDoc.updaterName := updaterName;
                 HistoryDoc.updaterUID := system_uid;
                 HistoryDoc.status := status_success;
                 HistoryDoc.eventCount := Some (Z.of_nat (length allEvents));
                 HistoryDoc.errorMessage := None |} in
            ([SetLatest latestData; AddHistory entry], add_history w entry)
        end
  end.

(** The entry written by the [catch] block. *)
Definition failedEntry (w : World) (updaterName : jsstring) (error : JSError)
  : HistoryDoc.t :=
  {| HistoryDoc.updateTime := Timestamp_caught w;
     HistoryDoc.updaterName := updaterName;
     HistoryDoc.updaterUID := system_uid;
     HistoryDoc.status := status_failed;
     HistoryDoc.eventCount := None;
     HistoryDoc.errorMessage := Some (or_else (Some (message error)) unknown_error) |}.

Definition main (w : World) : Run :=
  match getFirestoreInstance w with
  | inl stop => {| writes := []; exit := stop |}
  | inr _ =>
      let updaterName := or_else (GITHUB_ACTOR w) default_actor in
      match tryMain w updaterName with
      | (done, inr _) => {| writes := done; exit := Returned |}
      | (done, inl error) =>
          let entry := failedEntry w updaterName error in
          {| writes := done ++ [AddHistory entry];
             exit := match add_history w entry with
                     | inl e => Rejected e
                     | inr _ => Exit1
                     end |}
      end
  end.

(* ===================================================================== *)
(** ** Notions used to state the properties *)
(* ===================================================================== *)

(** The intensity value a node carries, when it carries one: the first
    [ShindoValue] of its first [Shindo] member. *)
Definition intensityOf (event : RawEvent) : option jsstring :=
  match Shindo event with
  | Some (node :: _) =>
      match ShindoValue node with
      | Some (v :: _) => Some v
      | _ => None
      end
  | _ => None
  end.

(** A node has an intensity when that value is a non-empty string. *)
Definition hasIntensity (event : RawEvent) : bool :=
  match intensityOf event with
  | Some (_ :: _) => true
  | _ => false
  end.

(** The canonicalization as the specification words it: every alternate
    glyph replaced, then the first three code units, then trimmed. *)
Definition specRegion (name : jsstring) : jsstring :=
  trim (substring0 3 (replaceAll tai_variant tai_standard name)).

(** Number of alternate glyphs in a string. *)
Definition variantCount (s : jsstring) : nat :=
  length (filter (λ c, c = 33274%N) s).

(** The replacement of one code unit. *)
Definition unify (c : N) : N := if (33274 =? c)%N then 21488%N else c.

(** Number of events of the sequence in one (region, intensity) group. *)
Definition occurrences (region intensity : jsstring)
    (events : list EarthquakeEvent) : Z :=
  Z.of_nat (length (filter (λ e, county e = region ∧ shindo e = intensity)
                           events)).

(** What a table holds for a group, when it holds something. *)
Definition cellOf (stats : gmap jsstring (gmap jsstring JSValue))
    (region intensity : jsstring) : option JSValue :=
  match stats !! region with
  | Some row => row !! intensity
  | None => None
  end.

(** The count a table holds for a group, 0 when it holds none. *)
Definition countOf (stats : gmap jsstring (gmap jsstring JSValue))
    (region intensity : jsstring) : Z :=
  match cellOf stats region intensity with
  | Some (Num n) => n
  | _ => 0%Z
  end.

(** What a row owns under a label after [k] events of that label: nothing
    under [__proto__]; under the name of an inherited function the text
    of that function followed by [k] digits 1; the count [k] under any
    other label. *)
Definition storedCount (intensity : jsstring) (k : nat) : option JSValue :=
  if decide (intensity = proto_key) then None
  else match k with
       | O => None
       | S _ =>
           match inheritedFunction intensity with
           | Some name => Some (Str (nativeSource name ++ replicate k 49%N))
           | None => Some (Num (Z.of_nat k))
           end
       end.

(** One event of a label, seen from the row: the own property under that
    label before and after. *)
Definition bump (intensity : jsstring) (cur : option JSValue)
  : option JSValue :=
  let row : gmap jsstring JSValue :=
    match cur with
    | Some v => {[ intensity := v ]}
    | None => ∅
    end in
  setProperty row intensity (orZeroPlusOne (getProperty row intensity))
    !! intensity.

(** The value a result holds for a group and a key, when it holds one. *)
Definition storedValue
    (result : gmap jsstring (gmap jsstring (gmap jsstring float)))
    (region intensity key : jsstring) : option float :=
  match result !! region with
  | Some row =>
      match row !! intensity with
      | Some cell => cell !! key
      | None => None
      end
  | None => None
  end.

(** The earliest event time as the specification words it: the least
    time of the events that have one, [now] when there is none. *)
Definition validTimes (events : list EarthquakeEvent) : list Z :=
  omap (fun e => match time e with
                 | ValidDate t => Some t
                 | InvalidDate => None
                 end) events.

Definition earliestEventTime (now : Z) (events : list EarthquakeEvent) : Z :=
  match validTimes events with
  | [] => now
  | t :: times => foldl Z.min t times
  end.

(** The keys of a cell, as the template literal builds them. *)
Definition key_1yr : jsstring := Eval vm_compute in lit "1yr".
Definition key_3yr : jsstring := Eval vm_compute in lit "3yr".
Definition key_6yr : jsstring := Eval vm_compute in lit "6yr".
Definition key_9yr : jsstring := Eval vm_compute in lit "9yr".

(* ===================================================================== *)
(** ** Sample inputs *)
(* ===================================================================== *)

(** A node of the catalog with intensity 4, an origin time and no
    location. *)
Definition node_without_location : RawEvent :=
  {| Shindo := Some [ {| ShindoValue := Some [lit "4"] |} ];
     Location := None;
     EarthquakeInfo :=
       Some [ {| OriginTime := Some [lit "2024-04-03T07:58:09+08:00"] |} ] |}.

(** A catalog of two nodes, the first without any member. *)
Definition sample_nodes : list RawEvent :=
  [ {| Shindo := None; Location := None; EarthquakeInfo := None |};
    node_without_location ].

Definition sample_catalog : option XmlData :=
  Some {| Data := Some {| Earthquake := Some sample_nodes |} |}.

(** A location name whose first three code units hold the alternate glyph
    twice. *)
Definition doubled_variant : jsstring := Eval vm_compute in lit "臺臺北".

Definition node_doubled_variant : RawEvent :=
  {| Shindo := Some [ {| ShindoValue := Some [lit "4"] |} ];
     Location := Some [ {| LocationName := Some [doubled_variant] |} ];
     EarthquakeInfo :=
       Some [ {| OriginTime := Some [lit "2024-04-03T07:58:09+08:00"] |} ] |}.

(** One event, half a day before the reference time. *)
Definition recent_event : EarthquakeEvent :=
  {| time := ValidDate 1712102289000;
     county := lit "花蓮縣";
     shindo := lit "6強" |}.

(** The scenario of the specification: two events of one group, two years
    and one year before the reference time. *)
Definition reference_time : Z := 1712145489000.

Definition taipei_events : list EarthquakeEvent :=
  [ {| time := ValidDate 1649030289000;
       county := lit "台北"; shindo := lit "3" |};
    {| time := ValidDate 1680587889000;
       county := lit "台北"; shindo := lit "3" |} ].

(** A stand-in for the exponential of an engine: the polynomial
    [1 + x + x^2 / 2]. *)
Definition sample_exp (x : float) : float := (1 + x + x * x / 2)%float.

(** One event whose intensity label is the name of an inherited member,
    as the node of a feed and as the record the normalizer makes of it,
    two years before the reference time. *)
Definition constructor_label : jsstring := Eval vm_compute in lit "constructor".

Definition node_constructor_label : RawEvent :=
  {| Shindo := Some [ {| ShindoValue := Some [constructor_label] |} ];
     Location := Some [ {| LocationName := Some [lit "台北市"] |} ];
     EarthquakeInfo :=
       Some [ {| OriginTime := Some [lit "2022-04-03T23:58:09Z"] |} ] |}.

Definition constructor_events : list EarthquakeEvent :=
  [ {| time := ValidDate 1649030289000;
       county := lit "台北市"; shindo := constructor_label |} ].

(** A world in which everything succeeds: one usable node in the current
    feed, an empty historical feed, a store that accepts every write. *)
Definition calm_world : World :=
  {| FIREBASE_SERVICE_ACCOUNT_JSON := Some (lit "{}");
     GITHUB_ACTOR := Some (lit "octocat");
     initializeApp := λ _, ret tt;
     fetched :=
       ret (Some {| Data := Some {| Earthquake :=
                                      Some [node_without_location] |} |},
            Some {| Data := None |});
     parseDate := λ _, ValidDate 1712102289000;
     Math_exp_approx := sample_exp;
     clock := 1712145489000;
     Timestamp_now := 1712145489001;
     Timestamp_caught := 1712145489002;
     set_latest := λ _, ret tt;
     add_history := λ _, ret tt |}.

Definition calm_entry : HistoryDoc.t :=
  {| HistoryDoc.updateTime := 1712145489001;
     HistoryDoc.updaterName := lit "octocat";
     HistoryDoc.updaterUID := lit "system-gh-actions";
     HistoryDoc.status := lit "SUCCESS (Auto)";
     HistoryDoc.eventCount := Some 1%Z;
     HistoryDoc.errorMessage := None |}.

(* ===================================================================== *)
(** ** Further notions: catalogs, node outcomes, whole runs *)
(* ===================================================================== *)

(** The parsed document that holds a given list of event nodes. *)
Definition catalogOf (events : list RawEvent) : option XmlData :=
  Some {| Data := Some {| Earthquake := Some events |} |}.

(** The location name the callback works on: the first [LocationName] of
    the first [Location] member, or the default name without [Location]. *)
Definition locationOf (event : RawEvent) : option jsstring :=
  match Location event with
  | None => Some unknown_county
  | Some (node :: _) =>
      match LocationName node with
      | Some (name :: _) => Some name
      | _ => None
      end
  | Some [] => None
  end.

(** The [OriginTime] array of the first [EarthquakeInfo] member. *)
Definition originOf (event : RawEvent) : option (list jsstring) :=
  match EarthquakeInfo event with
  | Some (info :: _) => OriginTime info
  | _ => None
  end.

(** The node is dropped by [return null], without a warning. *)
Definition silentlyDropped (Date_parse : jsstring -> Date) (event : RawEvent)
  : bool :=
  match tryBlock Date_parse event with
  | inr None => true
  | _ => false
  end.

(** The name [main] signs its documents with. *)
Definition updaterNameOf (w : World) : jsstring :=
  or_else (GITHUB_ACTOR w) default_actor.

(** The events [main] analyses: those of the current-year document
    followed by those of the historical one. *)
Definition mergedEvents (w : World) (currentYearXml historyXml : option XmlData)
  : list EarthquakeEvent :=
  extractEarthquakeEvents (parseDate w) currentYearXml
  ++ extractEarthquakeEvents (parseDate w) historyXml.

(** A world like [calm_world] whose feeds hold no usable node. *)
Definition barren_world : World :=
  {| FIREBASE_SERVICE_ACCOUNT_JSON := Some (lit "{}");
     GITHUB_ACTOR := None;
     initializeApp := λ _, ret tt;
     fetched := ret (catalogOf [], None);
     parseDate := λ _, InvalidDate;
     Math_exp_approx := sample_exp;
     clock := 1712145489000;
     Timestamp_now := 1712145489001;
     Timestamp_caught := 1712145489002;
     set_latest := λ _, ret tt;
     add_history := λ _, ret tt |}.

(** The snapshot of the run in [calm_world]. *)
Definition calm_doc : LatestDoc.t :=
  {| LatestDoc.updateTime := 1712145489001;
     LatestDoc.updaterName := lit "octocat";
     LatestDoc.updaterUID := system_uid;
     LatestDoc.analysisData :=
       analyzeEarthquakeData sample_exp 1712145489000
         (mergedEvents calm_world (catalogOf [node_without_location])
            (Some {| Data := None |}));
     LatestDoc.disclaimer := disclaimer_text;
     LatestDoc.totalEvents := 1 |}.

(* ===================================================================== *)
(** ** Proof automation *)
(* ===================================================================== *)

(** Case analysis on every member read of the callback. *)
Ltac split_members :=
  repeat match goal with
         | H : context [match ?x with _ => _ end] |- _ =>
             destruct x eqn:?; simpl in H; try discriminate H
         end.

(** An array whose element 0 is known has a head. *)
Ltac open_arrays :=
  repeat match goal with
         | H : ?l !! 0%nat = _ |- _ =>
             destruct l; simpl in H; try discriminate H
         end.

(* ===================================================================== *)
(** ** Properties of the normalizer *)
(* ===================================================================== *)

Section NormalizerFacts.

Variable Date_parse : jsstring -> Date.

Lemma filter_non_null_length {A} (arr : list (option A)) :
  length (filter_non_null arr) ≤ length arr.
Proof.
  induction arr as [|[a|] arr IH]; simpl; lia.
Qed.

Lemma elem_of_filter_non_null {A} (arr : list (option A)) (a : A) :
  a ∈ filter_non_null arr ↔ Some a ∈ arr.
Proof.
  unfold filter_non_null. rewrite list_elem_of_omap. split.
  - intros (o & Ho & ->). exact Ho.
  - intros Ho. exists (Some a). split; [exact Ho | reflexivity].
Qed.

(** A record comes out of the callback only for a node with an
    intensity, and carries that intensity. *)
Lemma mapCallback_Some_intensity (event : RawEvent) (ev : EarthquakeEvent) :
  mapCallback Date_parse event = Some ev →
  hasIntensity event = true ∧ intensityOf event = Some (shindo ev).
Proof.
  unfold mapCallback, tryBlock, hasIntensity, intensityOf, member, index0.
  intros Hcb. split_members; unfold ret in *; open_arrays; simplify_eq/=;
    repeat match goal with
           | H : ?x = Some _ |- context [?x] => rewrite H
           end; auto.
Qed.

Lemma mapCallback_no_intensity (event : RawEvent) :
  hasIntensity event = false → mapCallback Date_parse event = None.
Proof.
  intros Hno. destruct (mapCallback Date_parse event) as [ev|] eqn:Hcb;
    [|reflexivity].
  apply mapCallback_Some_intensity in Hcb as [Hyes _]. congruence.
Qed.

End NormalizerFacts.

Section NormalizerProperties.

Variable Date_parse : jsstring -> Date.

(** C7. When the path [Data.Earthquake] is absent, or the list under it
    is empty, [extractEarthquakeEvents] returns the empty sequence; the
    function has no exceptional exit and nothing is logged. *)
Theorem extract_absent_or_empty (xmlData : option XmlData) :
  eventList xmlData = None ∨ eventList xmlData = Some [] →
  extractEarthquakeEvents Date_parse xmlData = []
  ∧ extractWarnings Date_parse xmlData = [].
Proof.
  unfold extractEarthquakeEvents, extractWarnings.
  intros [-> | ->]; split; reflexivity.
Qed.

(** C5. A node without an intensity value yields no record, every record
    of the output comes from a node that has one, and so the output is
    no longer than the list of nodes (indeed no longer than the list of
    nodes with an intensity). *)
Theorem extract_drops_missing_intensity
    (xmlData : option XmlData) (events : list RawEvent) :
  eventList xmlData = Some events →
  (∀ event, event ∈ events → hasIntensity event = false →
            mapCallback Date_parse event = None)
  ∧ (∀ ev, ev ∈ extractEarthquakeEvents Date_parse xmlData →
           ∃ event, event ∈ events ∧ hasIntensity event = true
                    ∧ mapCallback Date_parse event = Some ev)
  ∧ length (extractEarthquakeEvents Date_parse xmlData)
    ≤ length (filter (λ event, hasIntensity event = true) events)
  ∧ length (extractEarthquakeEvents Date_parse xmlData) ≤ length events.
Proof.
  intros Hlist. unfold extractEarthquakeEvents. rewrite Hlist.
  split; [|split; [|split]].
  - intros event _. apply mapCallback_no_intensity.
  - intros ev Hev. apply elem_of_filter_non_null in Hev.
    apply list_elem_of_fmap in Hev as (event & Hcb & Hin).
    exists event. split; [exact Hin|].
    symmetry in Hcb. split; [|exact Hcb].
    apply (mapCallback_Some_intensity _ _ _ Hcb).
  - clear Hlist. unfold filter_non_null.
    induction events as [|event events IH]; [reflexivity|].
    rewrite filter_cons, fmap_cons. simpl.
    destruct (mapCallback Date_parse event) as [ev|] eqn:Hcb.
    + apply mapCallback_Some_intensity in Hcb as [Hyes _].
      rewrite decide_True by exact Hyes. simpl.
      apply le_n_S. exact IH.
    + etrans; [exact IH|]. case_decide; simpl; lia.
  - etrans; [apply filter_non_null_length|]. by rewrite length_fmap.
Qed.

(** C10. A node with an intensity and an origin time but without a
    [Location] member is kept: its record carries the first three code
    units of the default name as region. *)
Theorem extract_defaults_missing_location
    (event : RawEvent) (node : ShindoNode) (nodes : list ShindoNode)
    (c : N) (v : jsstring) (values : list jsstring)
    (info : EarthquakeInfoNode) (infos : list EarthquakeInfoNode)
    (origin : jsstring) (origins : list jsstring) :
  Shindo event = Some (node :: nodes) →
  ShindoValue node = Some ((c :: v) :: values) →
  Location event = None →
  EarthquakeInfo event = Some (info :: infos) →
  OriginTime info = Some (origin :: origins) →
  let ev := {| time := Date_parse origin;
               county := unknown_county_prefix;
               shindo := c :: v |} in
  mapCallback Date_parse event = Some ev
  ∧ ∀ xmlData events,
      eventList xmlData = Some events → event ∈ events →
      ev ∈ extractEarthquakeEvents Date_parse xmlData.
Proof.
  intros HS HV HL HI HO ev.
  assert (Hcb : mapCallback Date_parse event = Some ev).
  { unfold mapCallback, tryBlock. rewrite HS, HL, HI. simpl.
    rewrite HV. simpl. rewrite HO. reflexivity. }
  split; [exact Hcb|].
  intros xmlData events Hlist Hin.
  unfold extractEarthquakeEvents. rewrite Hlist.
  apply elem_of_filter_non_null. rewrite <- Hcb.
  apply list_elem_of_fmap. exists event. auto.
Qed.

End NormalizerProperties.

Lemma extract_absent_or_empty_witness :
  extractEarthquakeEvents (λ _, InvalidDate) (Some {| Data := None |}) = []
  ∧ extractWarnings (λ _, InvalidDate) (Some {| Data := None |}) = [].
Proof.
  apply (extract_absent_or_empty (λ _, InvalidDate) (Some {| Data := None |})).
  left. reflexivity.
Defined.

Lemma extract_drops_missing_intensity_witness :
  length (extractEarthquakeEvents (λ _, ValidDate 0) sample_catalog)
  ≤ length (filter (λ event, hasIntensity event = true) sample_nodes).
Proof.
  apply (extract_drops_missing_intensity
           (λ _, ValidDate 0) sample_catalog sample_nodes).
  reflexivity.
Defined.

Lemma extract_defaults_missing_location_witness :
  mapCallback (λ _, ValidDate 1712102289000) node_without_location
  = Some {| time := ValidDate 1712102289000;
            county := unknown_county_prefix;
            shindo := lit "4" |}.
Proof.
  eapply (extract_defaults_missing_location
            (λ _, ValidDate 1712102289000) node_without_location);
    reflexivity.
Defined.

(* ===================================================================== *)
(** ** Region-name canonicalization *)
(* ===================================================================== *)

Section Canonicalization.

Implicit Types (s t : jsstring) (c : N).

Local Arguments N.eqb : simpl never.

Lemma variantCount_cons c s :
  variantCount (c :: s)
  = ((if (33274 =? c)%N then 1 else 0) + variantCount s)%nat.
Proof.
  unfold variantCount. rewrite filter_cons.
  destruct (N.eqb_spec 33274 c) as [<- | Hne].
  - by rewrite decide_True.
  - by rewrite decide_False by congruence.
Qed.

Lemma unify_absent s : variantCount s = 0%nat → unify <$> s = s.
Proof.
  induction s as [|c s IH]; [reflexivity|].
  rewrite variantCount_cons, fmap_cons. unfold unify at 1.
  destruct (33274 =? c)%N; [discriminate|].
  simpl. intros H. by rewrite IH.
Qed.

Lemma variantCount_unify s : variantCount (unify <$> s) = 0%nat.
Proof.
  induction s as [|c s IH]; [reflexivity|].
  rewrite fmap_cons, variantCount_cons, IH. unfold unify.
  destruct (N.eqb_spec 33274 c) as [<- | Hne]; [reflexivity|].
  destruct (N.eqb_spec 33274 c); [contradiction | reflexivity].
Qed.

Lemma includes_variant s :
  includes tai_variant s = negb (variantCount s =? 0)%nat.
Proof.
  induction s as [|c s IH]; [reflexivity|].
  rewrite variantCount_cons. simpl. rewrite IH.
  destruct (33274 =? c)%N; simpl; [reflexivity|].
  reflexivity.
Qed.

Lemma replace_variant_once s :
  (variantCount s ≤ 1)%nat →
  replace tai_variant tai_standard s = unify <$> s.
Proof.
  induction s as [|c s IH]; [reflexivity|].
  rewrite variantCount_cons, fmap_cons. unfold unify at 1. simpl.
  destruct (33274 =? c)%N; simpl; intros Hcount.
  - rewrite drop_0, unify_absent by lia. reflexivity.
  - by rewrite IH.
Qed.

Lemma replaceAll_fuel_variant fuel s :
  (length s < fuel)%nat →
  replaceAll_fuel fuel tai_variant tai_standard s = unify <$> s.
Proof.
  revert s. induction fuel as [|fuel IH]; intros s Hlen; [lia|].
  destruct s as [|c s]; [reflexivity|].
  simpl in Hlen. rewrite fmap_cons. unfold unify at 1. simpl.
  destruct (33274 =? c)%N; simpl.
  - rewrite drop_0, IH by lia. reflexivity.
  - rewrite IH by lia. reflexivity.
Qed.

Lemma replaceAll_variant s :
  replaceAll tai_variant tai_standard s = unify <$> s.
Proof. apply replaceAll_fuel_variant. lia. Qed.

(** The specified region, computed: truncation and replacement
    commute, one code unit being replaced by one. *)
Lemma specRegion_alt s : specRegion s = trim (unify <$> substring0 3 s).
Proof.
  unfold specRegion, substring0. by rewrite replaceAll_variant, fmap_take.
Qed.

Lemma unifyCounty_once s :
  (variantCount (substring0 3 s) ≤ 1)%nat →
  unifyCounty s = unify <$> substring0 3 s.
Proof.
  intros Hcount. unfold unifyCounty. rewrite includes_variant.
  destruct (Nat.eqb_spec (variantCount (substring0 3 s)) 0) as [H0 | _];
    simpl.
  - by rewrite unify_absent.
  - by apply replace_variant_once.
Qed.

(** The code computes the specified region whenever the first three
    code units hold the alternate glyph at most once. *)
Lemma canonicalCounty_specRegion s :
  (variantCount (substring0 3 s) ≤ 1)%nat →
  canonicalCounty s = specRegion s.
Proof.
  intros Hcount. unfold canonicalCounty.
  by rewrite specRegion_alt, unifyCounty_once.
Qed.

End Canonicalization.

Section Idempotence.

Implicit Types (s t : jsstring) (c : N).

Lemma trimStart_suffix s : trimStart s `suffix_of` s.
Proof.
  induction s as [|c s IH]; simpl; [done|].
  destruct (is_space c); [by apply suffix_cons_r | done].
Qed.

Lemma trimEnd_prefix s : trimEnd s `prefix_of` s.
Proof.
  unfold trimEnd. pose proof (trimStart_suffix (reverse s)) as Hsuffix.
  apply suffix_prefix_reverse in Hsuffix.
  by rewrite reverse_involutive in Hsuffix.
Qed.

Lemma trimStart_idem s : trimStart (trimStart s) = trimStart s.
Proof.
  induction s as [|c s IH]; simpl; [done|].
  destruct (is_space c) eqn:Hc; [exact IH|]. simpl. by rewrite Hc.
Qed.

Lemma trimEnd_idem s : trimEnd (trimEnd s) = trimEnd s.
Proof.
  unfold trimEnd. by rewrite reverse_involutive, trimStart_idem.
Qed.

(** A string that [trimStart] leaves alone does not start with a
    space, and neither does any of its prefixes. *)
Lemma trimStart_fixed_prefix s t :
  trimStart s = s → t `prefix_of` s → trimStart t = t.
Proof.
  intros Hfix [k ->]. destruct t as [|c t]; [done|].
  simpl in *. destruct (is_space c); [|done].
  pose proof (suffix_length _ _ (trimStart_suffix (t ++ k))) as Hlen.
  rewrite Hfix in Hlen. simpl in Hlen. lia.
Qed.

Lemma trim_idem s : trim (trim s) = trim s.
Proof.
  unfold trim.
  rewrite (trimStart_fixed_prefix (trimStart s) (trimEnd (trimStart s))).
  - apply trimEnd_idem.
  - apply trimStart_idem.
  - apply trimEnd_prefix.
Qed.

Lemma trim_sublist s : trim s `sublist_of` s.
Proof.
  unfold trim.
  destruct (trimEnd_prefix (trimStart s)) as [k Hk].
  destruct (trimStart_suffix s) as [k' Hk'].
  rewrite Hk' at 2. apply sublist_inserts_l.
  rewrite Hk at 2. by apply sublist_inserts_r.
Qed.

Lemma variantCount_sublist s t :
  s `sublist_of` t → (variantCount s ≤ variantCount t)%nat.
Proof.
  induction 1 as [|c s t _ IH|c s t _ IH]; [done| |];
    rewrite !variantCount_cons; lia.
Qed.

(** A trimmed string of at most three code units without the alternate
    glyph is left as it is. *)
Lemma canonicalCounty_fixed s :
  (length s ≤ 3)%nat → variantCount s = 0%nat → trim s = s →
  canonicalCounty s = s.
Proof.
  intros Hlen Hcount Htrim. unfold canonicalCounty.
  rewrite unifyCounty_once; unfold substring0;
    rewrite take_ge by lia; [|lia].
  by rewrite unify_absent.
Qed.

(** The canonicalization of the code is idempotent on the names whose
    first three code units hold the alternate glyph at most once. *)
Lemma canonicalCounty_idem_once s :
  (variantCount (substring0 3 s) ≤ 1)%nat →
  canonicalCounty (canonicalCounty s) = canonicalCounty s.
Proof.
  intros Hcount. apply canonicalCounty_fixed.
  - unfold canonicalCounty. rewrite unifyCounty_once by done.
    etrans; [apply sublist_length, trim_sublist|].
    unfold substring0. rewrite length_fmap, length_take. lia.
  - unfold canonicalCounty. rewrite unifyCounty_once by done.
    pose proof (variantCount_sublist _ _
                  (trim_sublist (unify <$> substring0 3 s))) as Hle.
    rewrite variantCount_unify in Hle. lia.
  - apply trim_idem.
Qed.

(** The specified canonicalization is idempotent on every name. *)
Lemma specRegion_idem s : specRegion (specRegion s) = specRegion s.
Proof.
  rewrite !specRegion_alt.
  set (r := trim (unify <$> substring0 3 s)).
  assert (Hlen : (length r ≤ 3)%nat).
  { etrans; [apply sublist_length, trim_sublist|].
    unfold substring0. rewrite length_fmap, length_take. lia. }
  assert (Hcount : variantCount r = 0%nat).
  { pose proof (variantCount_sublist _ _
                  (trim_sublist (unify <$> substring0 3 s))) as Hle.
    rewrite variantCount_unify in Hle. fold r in Hle. lia. }
  unfold substring0. rewrite take_ge by lia.
  rewrite unify_absent by done. apply trim_idem.
Qed.

End Idempotence.

(** C3. On a name that starts with two alternate glyphs the code replaces
    only the first one: the region keeps an alternate glyph, where the
    specified value has none. *)
Theorem canonicalCounty_replaces_first_only :
  canonicalCounty doubled_variant = lit "台臺北"
  ∧ specRegion doubled_variant = lit "台台北"
  ∧ canonicalCounty doubled_variant ≠ specRegion doubled_variant
  ∧ ∀ Date_parse,
      county <$> extractEarthquakeEvents Date_parse
                   (Some {| Data := Some {| Earthquake :=
                                              Some [node_doubled_variant] |} |})
      = [lit "台臺北"].
Proof.
  split; [reflexivity|]. split; [reflexivity|].
  split; [discriminate|]. intros Date_parse. reflexivity.
Qed.

(** C4. On the same name a second application changes the result of the
    first: the canonicalization of the code is not idempotent. *)
Theorem canonicalCounty_not_idempotent :
  canonicalCounty doubled_variant = lit "台臺北"
  ∧ canonicalCounty (canonicalCounty doubled_variant) = lit "台台北"
  ∧ canonicalCounty (canonicalCounty doubled_variant)
    ≠ canonicalCounty doubled_variant.
Proof.
  split; [reflexivity|]. split; [reflexivity|]. discriminate.
Qed.

(* ===================================================================== *)
(** ** Properties of the analysis window *)
(* ===================================================================== *)

Section Window.

Variable exp_approx : float -> float.

Lemma msPerYear_value : msPerYear = 31557600000%R.
Proof. unfold msPerYear. lra. Qed.

Lemma msPerYear_pos : (0 < msPerYear)%R.
Proof. rewrite msPerYear_value. lra. Qed.

Lemma earlier_le (min : Z) (e : EarthquakeEvent) : (earlier min e ≤ min)%Z.
Proof.
  unfold earlier. destruct (time e) as [t|]; [|lia].
  destruct (Z.ltb_spec t min); lia.
Qed.

Lemma earlier_le_time (min t : Z) (e : EarthquakeEvent) :
  time e = ValidDate t → (earlier min e ≤ t)%Z.
Proof.
  unfold earlier. intros ->. destruct (Z.ltb_spec t min); lia.
Qed.

Lemma foldl_earlier_le (events : list EarthquakeEvent) (min : Z) :
  (foldl earlier min events ≤ min)%Z.
Proof.
  revert min. induction events as [|e events IH]; intros min; simpl; [lia|].
  etrans; [apply IH|]. apply earlier_le.
Qed.

(** The result of the [reduce] is below the time of every event that
    has one. *)
Lemma foldl_earlier_lower (events : list EarthquakeEvent) (min t : Z)
    (e : EarthquakeEvent) :
  e ∈ events → time e = ValidDate t → (foldl earlier min events ≤ t)%Z.
Proof.
  revert min. induction events as [|e' events IH]; intros min Hin Ht.
  - by apply elem_of_nil in Hin.
  - simpl. apply elem_of_cons in Hin as [-> | Hin].
    + etrans; [apply foldl_earlier_le|]. by apply earlier_le_time.
    + by apply IH.
Qed.

(** It is the starting value or the time of one of the events. *)
Lemma foldl_earlier_attained (events : list EarthquakeEvent) (min : Z) :
  foldl earlier min events = min
  ∨ ∃ e, e ∈ events ∧ time e = ValidDate (foldl earlier min events).
Proof.
  revert min. induction events as [|e events IH]; intros min; simpl;
    [by left|].
  destruct (IH (earlier min e)) as [Heq | (e' & Hin & Ht)].
  - rewrite Heq. unfold earlier.
    destruct (time e) as [t|] eqn:Ht; [|by left].
    destruct (Z.ltb_spec t min); [|by left].
    right. exists e. split; [by left | exact Ht].
  - right. exists e'. split; [by right | exact Ht].
Qed.

Lemma analyze_short_window (now : Z) (allEvents : list EarthquakeEvent) :
  (totalAnalysisYears now allEvents < 1)%R →
  analyzeEarthquakeData exp_approx now allEvents = ∅.
Proof.
  intros Hshort. unfold analyzeEarthquakeData.
  destruct (Rlt_dec _ _) as [_ | Hno]; [reflexivity | contradiction].
Qed.

Lemma analyze_long_window (now : Z) (allEvents : list EarthquakeEvent) :
  ¬ (totalAnalysisYears now allEvents < 1)%R →
  analyzeEarthquakeData exp_approx now allEvents
  = (λ shindoCounts : gmap jsstring JSValue,
       (λ count,
          horizons exp_approx count
            (totalAnalysisYearsNumber now allEvents))
         <$> shindoCounts) <$> buildStats allEvents.
Proof.
  intros Hlong. unfold analyzeEarthquakeData.
  destruct (Rlt_dec _ _) as [Hno | _]; [contradiction | reflexivity].
Qed.

Lemma totalAnalysisYears_empty (now : Z) : totalAnalysisYears now [] = 0%R.
Proof.
  unfold totalAnalysisYears, minHistoryDate. simpl.
  pose proof msPerYear_pos. field. lra.
Qed.

(** The test [totalAnalysisYears < 1] is a comparison of integers: the
    window is shorter than 31 557 600 000 ms. *)
Lemma short_window_iff (now : Z) (allEvents : list EarthquakeEvent) :
  (totalAnalysisYears now allEvents < 1)%R
  ↔ (now - minHistoryDate now allEvents < 31557600000)%Z.
Proof.
  unfold totalAnalysisYears. rewrite msPerYear_value. split.
  - intros Hshort. apply lt_IZR. rewrite minus_IZR. lra.
  - intros Hshort. apply IZR_lt in Hshort. rewrite minus_IZR in Hshort. lra.
Qed.

Lemma earlier_Zmin (min : Z) (e : EarthquakeEvent) :
  earlier min e
  = match time e with
    | ValidDate t => Z.min min t
    | InvalidDate => min
    end.
Proof.
  unfold earlier. destruct (time e) as [t|]; [|reflexivity].
  destruct (Z.ltb_spec t min); lia.
Qed.

Lemma foldl_earlier_validTimes (events : list EarthquakeEvent) (min : Z) :
  foldl earlier min events = foldl Z.min min (validTimes events).
Proof.
  revert min. unfold validTimes.
  induction events as [|e events IH]; intros min; simpl; [reflexivity|].
  rewrite IH, earlier_Zmin. destruct (time e); reflexivity.
Qed.

Lemma foldl_Zmin_min (times : list Z) (a b : Z) :
  foldl Z.min (Z.min a b) times = Z.min a (foldl Z.min b times).
Proof.
  revert b. induction times as [|t times IH]; intros b; simpl; [reflexivity|].
  by rewrite <- Z.min_assoc, IH.
Qed.

(** The reduce of the code against the earliest event time of the
    specification: the code never leaves [now] for a later time. *)
Lemma minHistoryDate_earliest (now : Z) (events : list EarthquakeEvent) :
  minHistoryDate now events = Z.min now (earliestEventTime now events).
Proof.
  unfold minHistoryDate, earliestEventTime.
  rewrite foldl_earlier_validTimes.
  destruct (validTimes events) as [|t times]; simpl; [lia|].
  apply foldl_Zmin_min.
Qed.

Lemma foldl_Zmin_lower (times : list Z) (a t : Z) :
  t ∈ times → (foldl Z.min a times ≤ t)%Z.
Proof.
  revert a. induction times as [|t' times IH]; intros a Hin.
  - by apply elem_of_nil in Hin.
  - simpl. apply elem_of_cons in Hin as [-> | Hin]; [|by apply IH].
    rewrite Z.min_comm, foldl_Zmin_min. lia.
Qed.

Lemma foldl_Zmin_le (times : list Z) (a : Z) : (foldl Z.min a times ≤ a)%Z.
Proof.
  revert a. induction times as [|t times IH]; intros a; simpl; [lia|].
  etrans; [apply IH|]. lia.
Qed.

Lemma elem_of_validTimes (events : list EarthquakeEvent) (t : Z) :
  t ∈ validTimes events ↔ ∃ e, e ∈ events ∧ time e = ValidDate t.
Proof.
  unfold validTimes. rewrite list_elem_of_omap. split.
  - intros (e & Hin & He). exists e. split; [exact Hin|].
    destruct (time e); congruence.
  - intros (e & Hin & He). exists e. split; [exact Hin|]. by rewrite He.
Qed.

Lemma earliestEventTime_lower (now : Z) (events : list EarthquakeEvent)
    (e : EarthquakeEvent) (t : Z) :
  e ∈ events → time e = ValidDate t → (earliestEventTime now events ≤ t)%Z.
Proof.
  intros Hin Ht.
  assert (Hvalid : t ∈ validTimes events)
    by (apply elem_of_validTimes; by exists e).
  unfold earliestEventTime.
  destruct (validTimes events) as [|t0 times];
    [by apply elem_of_nil in Hvalid|].
  apply elem_of_cons in Hvalid as [-> | Hvalid].
  - apply foldl_Zmin_le.
  - by apply foldl_Zmin_lower.
Qed.

(** C2. The earliest event time is [now] for the empty sequence and at
    most the time of every event that has one; the reduce of the code
    yields that time, or [now] when that time is later; the window
    [totalAnalysisYears] is the distance from [now] in years of 365.25
    days, the one measured from the earliest event time whenever that one
    is a year or more; and when it is below one year the result is the
    empty mapping, which is also the result for the empty sequence. *)
Theorem analyze_window_floor (now : Z) (allEvents : list EarthquakeEvent) :
  earliestEventTime now [] = now
  ∧ (∀ e t, e ∈ allEvents → time e = ValidDate t →
            (earliestEventTime now allEvents ≤ t)%Z)
  ∧ minHistoryDate now allEvents
    = Z.min now (earliestEventTime now allEvents)
  ∧ (minHistoryDate now allEvents = now
     ∨ ∃ e, e ∈ allEvents
            ∧ time e = ValidDate (minHistoryDate now allEvents))
  ∧ (minHistoryDate now allEvents ≤ now)%Z
  ∧ (∀ e t, e ∈ allEvents → time e = ValidDate t →
            (minHistoryDate now allEvents ≤ t)%Z)
  ∧ minHistoryDate now [] = now
  ∧ totalAnalysisYears now allEvents
    = (IZR (now - minHistoryDate now allEvents)
       / (365.25 * (24 * 60 * 60 * 1000)))%R
  ∧ ((IZR (now - earliestEventTime now allEvents)
      / (365.25 * (24 * 60 * 60 * 1000)) < 1)%R
     ↔ (totalAnalysisYears now allEvents < 1)%R)
  ∧ (¬ (totalAnalysisYears now allEvents < 1)%R →
     totalAnalysisYears now allEvents
     = (IZR (now - earliestEventTime now allEvents)
        / (365.25 * (24 * 60 * 60 * 1000)))%R)
  ∧ ((totalAnalysisYears now allEvents < 1)%R →
     analyzeEarthquakeData exp_approx now allEvents = ∅
     ∧ size (analyzeEarthquakeData exp_approx now allEvents) = 0%nat)
  ∧ analyzeEarthquakeData exp_approx now [] = ∅.
Proof.
  assert (Hyears : ∀ m : Z,
             (IZR (now - m) / (365.25 * (24 * 60 * 60 * 1000)) < 1)%R
             ↔ (now - m < 31557600000)%Z).
  { intros m. split.
    - intros Hshort. apply lt_IZR. lra.
    - intros Hshort. apply IZR_lt in Hshort. lra. }
  pose proof (minHistoryDate_earliest now allEvents) as Hmin.
  split; [reflexivity|].
  split; [intros e t; apply earliestEventTime_lower|].
  split; [exact Hmin|].
  split; [apply foldl_earlier_attained|].
  split; [apply foldl_earlier_le|].
  split; [intros e t; apply foldl_earlier_lower|].
  split; [reflexivity|].
  split.
  { unfold totalAnalysisYears, msPerYear. rewrite minus_IZR.
    f_equal. lra. }
  split.
  { rewrite Hyears, short_window_iff, Hmin. lia. }
  split.
  { intros Hlong. rewrite short_window_iff in Hlong.
    unfold totalAnalysisYears, msPerYear. rewrite <- minus_IZR.
    replace (minHistoryDate now allEvents)
      with (earliestEventTime now allEvents) by lia.
    f_equal. lra. }
  split.
  { intros Hshort. rewrite (analyze_short_window _ _ Hshort).
    split; [reflexivity | apply map_size_empty]. }
  apply analyze_short_window. rewrite totalAnalysisYears_empty. lra.
Qed.

End Window.

(* ===================================================================== *)
(** ** Properties of the frequency table *)
(* ===================================================================== *)

Section FrequencyTable.

Implicit Types (stats : gmap jsstring (gmap jsstring JSValue)).
Implicit Types (row : gmap jsstring JSValue).
Implicit Types (event : EarthquakeEvent) (events : list EarthquakeEvent).
Implicit Types (region intensity key : jsstring).

Lemma countEvent_alt stats event :
  countEvent stats event
  = <[county event :=
        setProperty (default ∅ (stats !! county event)) (shindo event)
          (orZeroPlusOne
             (getProperty (default ∅ (stats !! county event))
                (shindo event)))]> stats.
Proof.
  unfold countEvent.
  destruct (stats !! county event) as [row|] eqn:Hrow; simpl.
  - rewrite Hrow. reflexivity.
  - rewrite lookup_insert_eq. simpl. apply insert_insert_eq.
Qed.

Lemma setProperty_lookup_ne row key key' (v : JSValue) :
  key ≠ key' → setProperty row key v !! key' = row !! key'.
Proof.
  intros Hne. unfold setProperty. case_decide; [reflexivity|].
  by rewrite lookup_insert_ne.
Qed.

Lemma getProperty_ext row row' key :
  row !! key = row' !! key → getProperty row key = getProperty row' key.
Proof. intros Heq. unfold getProperty. by rewrite Heq. Qed.

(** One event changes its row under its own label only, as [bump]
    says. *)
Lemma setProperty_bump row key :
  setProperty row key (orZeroPlusOne (getProperty row key)) !! key
  = bump key (row !! key).
Proof.
  unfold bump.
  assert (Hget : getProperty row key
                 = getProperty (match row !! key with
                                | Some v => {[ key := v ]}
                                | None => ∅
                                end) key).
  { apply getProperty_ext.
    destruct (row !! key) as [v|];
      [by rewrite lookup_singleton_eq | by rewrite lookup_empty]. }
  rewrite <- Hget. unfold setProperty. case_decide.
  - destruct (row !! key) as [v|];
      [by rewrite lookup_singleton_eq | by rewrite lookup_empty].
  - by rewrite !lookup_insert_eq.
Qed.

Lemma cellOf_countEvent stats event region intensity :
  cellOf (countEvent stats event) region intensity
  = if decide (county event = region ∧ shindo event = intensity)
    then bump intensity (cellOf stats region intensity)
    else cellOf stats region intensity.
Proof.
  rewrite countEvent_alt. unfold cellOf at 1.
  destruct (decide (county event = region)) as [<- | Hr].
  - rewrite lookup_insert_eq.
    assert (Hrow : default ∅ (stats !! county event) !! intensity
                   = cellOf stats (county event) intensity).
    { unfold cellOf. destruct (stats !! county event); simpl;
        [reflexivity | apply lookup_empty]. }
    destruct (decide (shindo event = intensity)) as [<- | Hi].
    + rewrite decide_True by done. by rewrite setProperty_bump, Hrow.
    + rewrite decide_False by tauto.
      by rewrite setProperty_lookup_ne.
  - rewrite lookup_insert_ne, decide_False by tauto. reflexivity.
Qed.

Lemma cellOf_foldl events stats region intensity :
  cellOf (foldl countEvent stats events) region intensity
  = Nat.iter
      (length (filter (λ e, county e = region ∧ shindo e = intensity)
                 events))
      (bump intensity) (cellOf stats region intensity).
Proof.
  revert stats. induction events as [|event events IH]; intros stats;
    [reflexivity|].
  simpl. rewrite IH, cellOf_countEvent, filter_cons.
  case_decide; [|reflexivity]. cbn [length]. by rewrite Nat.iter_succ_r.
Qed.

Lemma replicate_snoc {A} (n : nat) (x : A) :
  replicate n x ++ [x] = replicate (S n) x.
Proof. induction n as [|n IH]; simpl; [reflexivity | by rewrite IH]. Qed.

Lemma bump_proto : bump proto_key None = None.
Proof. reflexivity. Qed.

Lemma bump_None intensity :
  intensity ≠ proto_key →
  bump intensity None
  = Some (match inheritedFunction intensity with
          | Some name => Str (nativeSource name ++ [49%N])
          | None => Num 1
          end).
Proof.
  intros Hproto. unfold bump, setProperty. rewrite decide_False by done.
  rewrite lookup_insert_eq. f_equal. unfold getProperty.
  rewrite lookup_empty, decide_False by done.
  destruct (inheritedFunction intensity); reflexivity.
Qed.

Lemma bump_Some intensity (v : JSValue) :
  intensity ≠ proto_key →
  bump intensity (Some v) = Some (orZeroPlusOne (Own v)).
Proof.
  intros Hproto. unfold bump, setProperty. rewrite decide_False by done.
  rewrite lookup_insert_eq. f_equal. unfold getProperty.
  by rewrite lookup_singleton_eq.
Qed.

(** What [k] events of a label leave under that label. *)
Lemma iter_bump intensity (k : nat) :
  Nat.iter k (bump intensity) None = storedCount intensity k.
Proof.
  unfold storedCount.
  destruct (decide (intensity = proto_key)) as [-> | Hproto].
  { induction k as [|k IH]; [reflexivity|].
    rewrite Nat.iter_succ, IH. apply bump_proto. }
  induction k as [|k IH]; [reflexivity|].
  rewrite Nat.iter_succ, IH. destruct k as [|k].
  - rewrite bump_None by done.
    destruct (inheritedFunction intensity); reflexivity.
  - destruct (inheritedFunction intensity) as [name|];
      rewrite bump_Some by done; f_equal.
    + unfold orZeroPlusOne. rewrite decide_False.
      * f_equal. change (lit "1") with [49%N].
        rewrite <- (replicate_snoc (S k) 49%N), !app_assoc. reflexivity.
      * unfold nativeSource, function_prefix. discriminate.
    + unfold orZeroPlusOne. f_equal. lia.
Qed.

Lemma cellOf_buildStats events region intensity :
  cellOf (buildStats events) region intensity
  = storedCount intensity (Z.to_nat (occurrences region intensity events)).
Proof.
  unfold buildStats, occurrences. rewrite cellOf_foldl, Nat2Z.id.
  unfold cellOf at 1. rewrite lookup_empty. apply iter_bump.
Qed.

(** A row of the table under one label. *)
Lemma buildStats_row_lookup events region intensity row :
  buildStats events !! region = Some row →
  row !! intensity
  = storedCount intensity (Z.to_nat (occurrences region intensity events)).
Proof.
  intros Hrow. rewrite <- cellOf_buildStats. unfold cellOf. by rewrite Hrow.
Qed.

Lemma countEvent_row stats event region :
  is_Some (countEvent stats event !! region)
  ↔ is_Some (stats !! region) ∨ county event = region.
Proof.
  rewrite countEvent_alt.
  destruct (decide (county event = region)) as [<- | Hne].
  - rewrite lookup_insert_eq. split; [by right | by eexists].
  - rewrite lookup_insert_ne by done. tauto.
Qed.

Lemma foldl_countEvent_row events stats region :
  is_Some (foldl countEvent stats events !! region)
  ↔ is_Some (stats !! region) ∨ ∃ e, e ∈ events ∧ county e = region.
Proof.
  revert stats. induction events as [|event events IH]; intros stats; simpl.
  - split; [by left|]. intros [H | (e & Hin & _)]; [done|].
    by apply elem_of_nil in Hin.
  - rewrite IH, countEvent_row. split.
    + intros [[H | H] | (e & Hin & He)]; [by left | |].
      * right. exists event. split; [by left | done].
      * right. exists e. split; [by right | done].
    + intros [H | (e & Hin & He)]; [by left; left|].
      apply elem_of_cons in Hin as [-> | Hin]; [by left; right|].
      right. by exists e.
Qed.

Lemma buildStats_row events region :
  is_Some (buildStats events !! region)
  ↔ ∃ e, e ∈ events ∧ county e = region.
Proof.
  unfold buildStats. rewrite foldl_countEvent_row, lookup_empty.
  split; [|by right]. intros [[x Hx] | H]; [discriminate | exact H].
Qed.

Lemma occurrences_pos events region intensity :
  (0 < occurrences region intensity events)%Z
  ↔ ∃ e, e ∈ events ∧ county e = region ∧ shindo e = intensity.
Proof.
  unfold occurrences. split.
  - intros Hpos.
    destruct (filter _ events) as [|e rest] eqn:Hf; [simpl in Hpos; lia|].
    assert (Hin : e ∈ filter (λ e, county e = region ∧ shindo e = intensity)
                      events) by (rewrite Hf; by left).
    apply list_elem_of_filter in Hin as [[Hc Hs] Hin]. by exists e.
  - intros (e & Hin & Hc & Hs).
    assert (Hf : e ∈ filter (λ e, county e = region ∧ shindo e = intensity)
                     events) by (apply list_elem_of_filter; auto).
    destruct (filter _ events); [by apply elem_of_nil in Hf | simpl; lia].
Qed.

Lemma occurrences_nonneg events region intensity :
  (0 ≤ occurrences region intensity events)%Z.
Proof. unfold occurrences. lia. Qed.

Lemma inheritedMember_false intensity :
  inheritedMember intensity = false →
  intensity ≠ proto_key ∧ inheritedFunction intensity = None.
Proof.
  unfold inheritedMember. intros H. apply orb_false_elim in H as [Hp Hf].
  apply bool_decide_eq_false in Hp, Hf. split; [exact Hp|].
  destruct (inheritedFunction intensity); [|reflexivity].
  exfalso. apply Hf. by eexists.
Qed.

(** Under a label that is no inherited member a row holds the number of
    events of the group. *)
Lemma storedCount_plain intensity (c : Z) :
  inheritedMember intensity = false → (0 < c)%Z →
  storedCount intensity (Z.to_nat c) = Some (Num c).
Proof.
  intros Hplain Hpos. apply inheritedMember_false in Hplain as [Hp Hf].
  unfold storedCount. rewrite decide_False, Hf by done.
  destruct (Z.to_nat c) as [|k] eqn:Hk; [lia|]. f_equal. f_equal. lia.
Qed.

(** Every string of the table starts with the text [function]: it is no
    numeric literal, and converts to NaN. *)
Lemma buildStats_strings events region intensity row (s : jsstring) :
  buildStats events !! region = Some row →
  row !! intensity = Some (Str s) →
  ∃ rest, s = function_prefix ++ rest.
Proof.
  intros Hrow Hs. rewrite (buildStats_row_lookup _ _ _ _ Hrow) in Hs.
  unfold storedCount in Hs. case_decide; [discriminate|].
  destruct (Z.to_nat _); [discriminate|].
  destruct (inheritedFunction intensity) as [name|]; [|discriminate].
  injection Hs as <-. unfold nativeSource. rewrite <- app_assoc. by eexists.
Qed.

Lemma occurrences_Permutation events1 events2 region intensity :
  events1 ≡ₚ events2 →
  occurrences region intensity events1 = occurrences region intensity events2.
Proof. intros Hperm. unfold occurrences. by rewrite Hperm. Qed.

Lemma buildStats_Permutation events1 events2 :
  events1 ≡ₚ events2 → buildStats events1 = buildStats events2.
Proof.
  intros Hperm. apply map_eq. intros region.
  destruct (buildStats events1 !! region) as [row1|] eqn:H1;
    destruct (buildStats events2 !! region) as [row2|] eqn:H2.
  - f_equal. apply map_eq. intros intensity.
    rewrite (buildStats_row_lookup _ _ intensity _ H1),
      (buildStats_row_lookup _ _ intensity _ H2).
    by rewrite (occurrences_Permutation _ _ _ _ Hperm).
  - assert (Hsome : is_Some (buildStats events2 !! region)).
    { apply buildStats_row.
      destruct (proj1 (buildStats_row events1 region)) as (e & Hin & He);
        [by eexists|].
      exists e. by rewrite <- Hperm. }
    rewrite H2 in Hsome. by destruct Hsome.
  - assert (Hsome : is_Some (buildStats events1 !! region)).
    { apply buildStats_row.
      destruct (proj1 (buildStats_row events2 region)) as (e & Hin & He);
        [by eexists|].
      exists e. by rewrite Hperm. }
    rewrite H1 in Hsome. by destruct Hsome.
  - reflexivity.
Qed.

End FrequencyTable.

(* ===================================================================== *)
(** ** Properties of the stored percentages *)
(* ===================================================================== *)

Section NotANumber.

Lemma div_nan_l (y : float) : (nan / y)%float = nan.
Proof.
  apply FloatAxioms.Prim2SF_inj. rewrite FloatAxioms.div_spec. reflexivity.
Qed.

Lemma mul_nan_l (y : float) : (nan * y)%float = nan.
Proof.
  apply FloatAxioms.Prim2SF_inj. rewrite FloatAxioms.mul_spec. reflexivity.
Qed.

(** NaN equals no number, itself included. *)
Lemma eqb_nan_l (y : float) : (nan =? y)%float = false.
Proof. rewrite FloatAxioms.eqb_spec. reflexivity. Qed.

End NotANumber.

Section Percentages.

Variable exp_approx : float -> float.

(** A count that is a string gives NaN at every horizon, whatever the
    window and the engine. *)
Lemma percentage_Str (s : jsstring) (totalYears : float) (t : Z) :
  percentage exp_approx (Str s) totalYears t = nan.
Proof.
  unfold percentage, ToNumber. rewrite div_nan_l, mul_nan_l. reflexivity.
Qed.

Lemma horizons_unfold (count : JSValue) (totalYears : float) :
  horizons exp_approx count totalYears
  = <[key_9yr := percentage exp_approx count totalYears 9]>
      (<[key_6yr := percentage exp_approx count totalYears 6]>
         (<[key_3yr := percentage exp_approx count totalYears 3]>
            (<[key_1yr := percentage exp_approx count totalYears 1]> ∅))).
Proof. reflexivity. Qed.

Lemma horizons_lookup (count : JSValue) (totalYears : float) (t : Z) :
  t ∈ timeIntervals →
  horizons exp_approx count totalYears !! horizonKey t
  = Some (percentage exp_approx count totalYears t).
Proof.
  intros Ht. rewrite horizons_unfold. unfold timeIntervals in Ht.
  repeat (apply elem_of_cons in Ht as [-> | Ht]);
    [| | | | by apply elem_of_nil in Ht].
  - change (horizonKey 1) with key_1yr.
    do 3 (rewrite lookup_insert_ne by discriminate).
    apply lookup_insert_eq.
  - change (horizonKey 3) with key_3yr.
    do 2 (rewrite lookup_insert_ne by discriminate).
    apply lookup_insert_eq.
  - change (horizonKey 6) with key_6yr.
    rewrite lookup_insert_ne by discriminate.
    apply lookup_insert_eq.
  - change (horizonKey 9) with key_9yr.
    apply lookup_insert_eq.
Qed.

Lemma horizons_dom (count : JSValue) (totalYears : float) :
  dom (horizons exp_approx count totalYears)
  = ({[key_1yr; key_3yr; key_6yr; key_9yr]} : gset jsstring).
Proof.
  rewrite horizons_unfold, !dom_insert_L, dom_empty_L. set_solver.
Qed.

(** Every value of a cell made from a string is NaN. *)
Lemma horizons_Str (s : jsstring) (totalYears : float)
    (key : jsstring) (v : float) :
  horizons exp_approx (Str s) totalYears !! key = Some v → v = nan.
Proof.
  rewrite horizons_unfold. intros Hv.
  repeat (apply lookup_insert_Some in Hv as [[_ <-] | [_ Hv]];
          [apply percentage_Str|]).
  rewrite lookup_empty in Hv. discriminate.
Qed.

(** A cell of the output comes from a cell of the table. *)
Lemma analyze_cell (now : Z) (allEvents : list EarthquakeEvent)
    (region intensity : jsstring)
    (row : gmap jsstring (gmap jsstring float)) (cell : gmap jsstring float) :
  analyzeEarthquakeData exp_approx now allEvents !! region = Some row →
  row !! intensity = Some cell →
  ¬ (totalAnalysisYears now allEvents < 1)%R
  ∧ ∃ counts count,
      buildStats allEvents !! region = Some counts
      ∧ counts !! intensity = Some count
      ∧ cell = horizons exp_approx count
                 (totalAnalysisYearsNumber now allEvents).
Proof.
  intros Hrow Hcell.
  destruct (Rlt_dec (totalAnalysisYears now allEvents) 1) as [Hshort | Hlong].
  { rewrite (analyze_short_window _ _ _ Hshort), lookup_empty in Hrow.
    discriminate. }
  split; [exact Hlong|].
  rewrite (analyze_long_window _ _ _ Hlong), lookup_fmap in Hrow.
  destruct (buildStats allEvents !! region) as [counts|]; [|discriminate].
  simpl in Hrow. injection Hrow as <-.
  rewrite lookup_fmap in Hcell.
  destruct (counts !! intensity) as [count|] eqn:Hcount; [|discriminate].
  simpl in Hcell. injection Hcell as <-.
  exists counts, count. auto.
Qed.

(** And a cell of the table gives its cell of the output, once the
    window is long enough. *)
Lemma analyze_of_table (now : Z) (allEvents : list EarthquakeEvent)
    (region intensity : jsstring)
    (counts : gmap jsstring JSValue) (count : JSValue) :
  ¬ (totalAnalysisYears now allEvents < 1)%R →
  buildStats allEvents !! region = Some counts →
  counts !! intensity = Some count →
  ∃ row,
    analyzeEarthquakeData exp_approx now allEvents !! region = Some row
    ∧ row !! intensity
      = Some (horizons exp_approx count
                (totalAnalysisYearsNumber now allEvents)).
Proof.
  intros Hlong Hcounts Hcount.
  rewrite (analyze_long_window _ _ _ Hlong).
  eexists. rewrite lookup_fmap, Hcounts. simpl.
  split; [reflexivity|]. by rewrite lookup_fmap, Hcount.
Qed.

Lemma storedValue_of_table (now : Z) (allEvents : list EarthquakeEvent)
    (region intensity : jsstring)
    (counts : gmap jsstring JSValue) (count : JSValue) (t : Z) :
  ¬ (totalAnalysisYears now allEvents < 1)%R →
  buildStats allEvents !! region = Some counts →
  counts !! intensity = Some count →
  t ∈ timeIntervals →
  storedValue (analyzeEarthquakeData exp_approx now allEvents)
    region intensity (horizonKey t)
  = Some (percentage exp_approx count
            (totalAnalysisYearsNumber now allEvents) t).
Proof.
  intros Hlong Hcounts Hcount Ht.
  destruct (analyze_of_table _ _ _ _ _ _ Hlong Hcounts Hcount)
    as (row & Hrow & Hcell).
  unfold storedValue. rewrite Hrow, Hcell. by apply horizons_lookup.
Qed.

End Percentages.

(** The arithmetic is that of doubles. One event 206 386 817 819 ms
    before [now] gives at nine years, once the engine returns for
    [Math.exp] the double nearest to the exponential (0.25255), the
    product 7474.499999999999, which [Math.round] takes down: the value
    stored is 74.74. *)
Lemma percentage_below_half :
  percentage (λ _, 0x1.029c779a6b50bp-2%float) (Num 1)
    (totalAnalysisYearsNumber reference_time
       [ {| time := ValidDate (reference_time - 206386817819);
            county := lit "台北"; shindo := lit "3" |} ])
    9
  = (7474 / 100)%float.
Proof. vm_compute. reflexivity. Qed.

(** The event with the inherited label, in the table and in time. *)
Lemma constructor_window_long :
  ¬ (totalAnalysisYears reference_time constructor_events < 1)%R.
Proof.
  rewrite short_window_iff.
  change (minHistoryDate reference_time constructor_events)
    with 1649030289000%Z.
  unfold reference_time. lia.
Qed.

Lemma constructor_stats :
  buildStats constructor_events !! lit "台北市"
  = Some {[ constructor_label
            := Str (lit "function Object() { [native code] }1") ]}.
Proof. vm_compute. reflexivity. Qed.

Lemma constructor_stored (exp_approx : float -> float) (t : Z) :
  t ∈ timeIntervals →
  storedValue
    (analyzeEarthquakeData exp_approx reference_time constructor_events)
    (lit "台北市") constructor_label (horizonKey t)
  = Some nan.
Proof.
  intros Ht.
  rewrite (storedValue_of_table exp_approx _ _ _ _ _ _ t
             constructor_window_long constructor_stats
             (lookup_singleton_eq _ _) Ht).
  by rewrite percentage_Str.
Qed.

Lemma constructor_extracted :
  extractEarthquakeEvents (λ _, ValidDate 1649030289000)
    (catalogOf [node_constructor_label])
  = constructor_events.
Proof. reflexivity. Qed.

(* ===================================================================== *)
(** ** The estimator: stored values, order and bounds *)
(* ===================================================================== *)

Section EstimatorProperties.

Variable exp_approx : float -> float.

(** What the code stores where the table holds a count. With a window
    of at least one year, every group of events whose intensity label is
    not the name of a member inherited from [Object.prototype] has, in
    the table, the number [c] of its events, and in the result a cell
    that holds, under the key ["<t>yr"] for each horizon [t] of 1, 3, 6,
    9, the double
    [Math.round((1 - Math.exp(-((c / totalYears) * t))) * 10000) / 100],
    every operation being that of doubles and [Math.exp] the engine's. *)
Lemma analyze_stores_double_percentage
    (now : Z) (allEvents : list EarthquakeEvent)
    (region intensity : jsstring) (c t : Z) :
  ¬ (totalAnalysisYears now allEvents < 1)%R →
  inheritedMember intensity = false →
  occurrences region intensity allEvents = c →
  (0 < c)%Z →
  t ∈ timeIntervals →
  timeIntervals = [1; 3; 6; 9]%Z
  ∧ ∃ counts row cell,
      buildStats allEvents !! region = Some counts
      ∧ counts !! intensity = Some (Num c)
      ∧ analyzeEarthquakeData exp_approx now allEvents !! region = Some row
      ∧ row !! intensity = Some cell
      ∧ cell !! (lit (pretty t) ++ lit "yr")
        = Some (Math_round
                  ((1 - Math_exp exp_approx
                          (- (Z2F c / totalAnalysisYearsNumber now allEvents
                              * Z2F t))) * 10000) / 100)%float.
Proof.
  intros Hlong Hplain Hocc Hpos Ht. split; [reflexivity|].
  assert (Hev : (0 < occurrences region intensity allEvents)%Z) by lia.
  apply occurrences_pos in Hev as (e & Hin & Hc & _).
  destruct (proj2 (buildStats_row allEvents region)) as [counts Hcounts];
    [by exists e|].
  assert (Hcount : counts !! intensity = Some (Num c)).
  { rewrite (buildStats_row_lookup _ _ _ _ Hcounts), Hocc.
    by apply storedCount_plain. }
  destruct (analyze_of_table exp_approx _ _ _ _ _ _ Hlong Hcounts Hcount)
    as (row & Hrow & Hcell).
  exists counts, row. eexists. split; [exact Hcounts|].
  split; [exact Hcount|]. split; [exact Hrow|]. split; [exact Hcell|].
  exact (horizons_lookup exp_approx _ _ _ Ht).
Qed.

(** C1. For an event whose intensity label is [constructor], which the
    normalizer lets through, the group has one event and a window of two
    years, yet the table holds for it the string
    [function Object() { [native code] }1], and the value stored under
    each of the four keys is NaN: it is not the value of the formula at
    the count 1, whatever the exponential of the engine. *)
Theorem analyze_inherited_label_not_percentage :
  extractEarthquakeEvents (λ _, ValidDate 1649030289000)
    (catalogOf [node_constructor_label])
  = constructor_events
  ∧ ¬ (totalAnalysisYears reference_time constructor_events < 1)%R
  ∧ occurrences (lit "台北市") constructor_label constructor_events = 1%Z
  ∧ cellOf (buildStats constructor_events) (lit "台北市") constructor_label
    = Some (Str (lit "function Object() { [native code] }1"))
  ∧ ∀ t, t ∈ timeIntervals →
         storedValue
           (analyzeEarthquakeData exp_approx reference_time
              constructor_events)
           (lit "台北市") constructor_label (lit (pretty t) ++ lit "yr")
         = Some nan
         ∧ (nan =? Math_round
                     ((1 - Math_exp exp_approx
                             (- (Z2F 1
                                 / totalAnalysisYearsNumber reference_time
                                     constructor_events
                                 * Z2F t))) * 10000) / 100)%float = false.
Proof.
  split; [exact constructor_extracted|].
  split; [exact constructor_window_long|].
  split; [reflexivity|].
  split; [vm_compute; reflexivity|].
  intros t Ht. split; [by apply constructor_stored | apply eqb_nan_l].
Qed.

(** C6. For an event whose intensity label is [constructor], which the
    normalizer lets through, the count of the table is a string and the
    four values of the cell are NaN: they are not in order, NaN being
    below or equal to nothing. *)
Theorem analyze_inherited_label_unordered :
  extractEarthquakeEvents (λ _, ValidDate 1649030289000)
    (catalogOf [node_constructor_label])
  = constructor_events
  ∧ ¬ (totalAnalysisYears reference_time constructor_events < 1)%R
  ∧ occurrences (lit "台北市") constructor_label constructor_events = 1%Z
  ∧ storedValue
      (analyzeEarthquakeData exp_approx reference_time constructor_events)
      (lit "台北市") constructor_label (lit "1yr") = Some nan
  ∧ storedValue
      (analyzeEarthquakeData exp_approx reference_time constructor_events)
      (lit "台北市") constructor_label (lit "3yr") = Some nan
  ∧ storedValue
      (analyzeEarthquakeData exp_approx reference_time constructor_events)
      (lit "台北市") constructor_label (lit "6yr") = Some nan
  ∧ storedValue
      (analyzeEarthquakeData exp_approx reference_time constructor_events)
      (lit "台北市") constructor_label (lit "9yr") = Some nan
  ∧ (nan <=? nan)%float = false.
Proof.
  split; [exact constructor_extracted|].
  split; [exact constructor_window_long|].
  split; [reflexivity|].
  split; [apply (constructor_stored exp_approx 1); set_solver|].
  split; [apply (constructor_stored exp_approx 3); set_solver|].
  split; [apply (constructor_stored exp_approx 6); set_solver|].
  split; [apply (constructor_stored exp_approx 9); set_solver|].
  reflexivity.
Qed.

(** C8. For the same event the cell of the output has the four keys
    [1yr], [3yr], [6yr], [9yr] and no other, and every value it holds is
    NaN: neither at least 0 nor at most 100, and equal to no number of
    hundredths. *)
Theorem analyze_inherited_label_out_of_range :
  ∃ row cell,
    analyzeEarthquakeData exp_approx reference_time constructor_events
      !! lit "台北市" = Some row
    ∧ row !! constructor_label = Some cell
    ∧ dom cell
      = ({[lit "1yr"; lit "3yr"; lit "6yr"; lit "9yr"]} : gset jsstring)
    ∧ ∀ key v,
        cell !! key = Some v →
        v = nan
        ∧ (0 <=? v)%float = false
        ∧ (v <=? 100)%float = false
        ∧ ∀ n : Z, (v =? Z2F n / 100)%float = false.
Proof.
  destruct (analyze_of_table exp_approx _ _ _ _ _ _
              constructor_window_long constructor_stats
              (lookup_singleton_eq _ _))
    as (row & Hrow & Hcell).
  exists row. eexists. split; [exact Hrow|]. split; [exact Hcell|].
  split; [exact (horizons_dom exp_approx _ _)|].
  intros key v Hv. apply horizons_Str in Hv. subst v.
  split; [reflexivity|]. split; [reflexivity|]. split; [reflexivity|].
  intros n. apply eqb_nan_l.
Qed.

End EstimatorProperties.

Lemma taipei_window : totalAnalysisYears reference_time taipei_events = 2%R.
Proof.
  unfold totalAnalysisYears. rewrite msPerYear_value.
  change (minHistoryDate reference_time taipei_events) with 1649030289000%Z.
  unfold reference_time. lra.
Qed.

Lemma taipei_window_long :
  ¬ (totalAnalysisYears reference_time taipei_events < 1)%R.
Proof. rewrite taipei_window. lra. Qed.

Lemma analyze_stores_double_percentage_witness :
  ∃ counts row cell,
    buildStats taipei_events !! lit "台北" = Some counts
    ∧ counts !! lit "3" = Some (Num 2)
    ∧ analyzeEarthquakeData sample_exp reference_time taipei_events
        !! lit "台北" = Some row
    ∧ row !! lit "3" = Some cell
    ∧ cell !! (lit (pretty 3%Z) ++ lit "yr")
      = Some (Math_round
                ((1 - Math_exp sample_exp
                        (- (Z2F 2
                            / totalAnalysisYearsNumber reference_time
                                taipei_events
                            * Z2F 3))) * 10000) / 100)%float.
Proof.
  apply (analyze_stores_double_percentage sample_exp
           reference_time taipei_events (lit "台北") (lit "3") 2 3).
  - exact taipei_window_long.
  - reflexivity.
  - reflexivity.
  - lia.
  - right; left.
Defined.

(* ===================================================================== *)
(** ** The run-history entries of [main] *)
(* ===================================================================== *)

Section RunHistory.



End RunHistory.




(* ===================================================================== *)
(** ** The normalizer: provenance, isolation and accounting *)
(* ===================================================================== *)

Section NormalizerMore.

Variable Date_parse : jsstring -> Date.

Local Arguments N.eqb : simpl never.

Lemma extract_catalogOf (events : list RawEvent) :
  extractEarthquakeEvents Date_parse (catalogOf events)
  = filter_non_null (mapCallback Date_parse <$> events).
Proof. reflexivity. Qed.

Lemma extractWarnings_catalogOf (events : list RawEvent) :
  extractWarnings Date_parse (catalogOf events) = warnings Date_parse events.
Proof. reflexivity. Qed.

(** X1. Extraction works node by node and keeps the input order: the
    records of a list of nodes followed by another are the records of the
    first followed by the records of the second. *)
Theorem extract_app (events1 events2 : list RawEvent) :
  extractEarthquakeEvents Date_parse (catalogOf (events1 ++ events2))
  = extractEarthquakeEvents Date_parse (catalogOf events1)
    ++ extractEarthquakeEvents Date_parse (catalogOf events2).
Proof.
  rewrite !extract_catalogOf. unfold filter_non_null.
  by rewrite fmap_app, omap_app.
Qed.

(** X2. A node whose processing throws is reported and skipped; the
    records obtained from the nodes around it are the ones obtained
    without it. *)
Theorem extract_isolates_failure
    (events1 events2 : list RawEvent) (bad : RawEvent) (err : JSError) :
  tryBlock Date_parse bad = inl err →
  extractEarthquakeEvents Date_parse (catalogOf (events1 ++ bad :: events2))
  = extractEarthquakeEvents Date_parse (catalogOf (events1 ++ events2))
  ∧ err ∈ extractWarnings Date_parse (catalogOf (events1 ++ bad :: events2)).
Proof.
  intros Hbad. split.
  - rewrite (extract_app events1 (bad :: events2)), (extract_app events1 events2).
    f_equal. rewrite !extract_catalogOf. unfold filter_non_null.
    rewrite fmap_cons. simpl. unfold mapCallback at 1. by rewrite Hbad.
  - rewrite extractWarnings_catalogOf. unfold warnings.
    apply list_elem_of_omap. exists bad. split; [set_solver|].
    by rewrite Hbad.
Qed.

(** X3. Every node is accounted for exactly once: it gives a record, or a
    warning, or it is dropped silently. *)
Theorem extract_accounts_for_every_node (events : list RawEvent) :
  length events
  = (length (extractEarthquakeEvents Date_parse (catalogOf events))
     + length (extractWarnings Date_parse (catalogOf events))
     + length (filter (λ event, silentlyDropped Date_parse event = true)
                      events))%nat.
Proof.
  rewrite extract_catalogOf, extractWarnings_catalogOf.
  unfold filter_non_null, warnings.
  induction events as [|event events IH]; [reflexivity|].
  rewrite fmap_cons, filter_cons. simpl.
  case_decide as Hsilent; unfold silentlyDropped in Hsilent;
    unfold mapCallback at 1;
    destruct (tryBlock Date_parse event) as [err | [ev|]];
    try discriminate; try congruence; simpl in *; unfold omap in *; lia.
Qed.

(** What an emitted record holds, read off the node. *)
Lemma mapCallback_Some_fields (event : RawEvent) (ev : EarthquakeEvent) :
  mapCallback Date_parse event = Some ev →
  intensityOf event = Some (shindo ev)
  ∧ shindo ev ≠ []
  ∧ (∃ name, locationOf event = Some name
             ∧ county ev = canonicalCounty name)
  ∧ (∃ origin, originOf event = Some origin
               ∧ time ev = new_Date Date_parse (index0 origin)).
Proof.
  unfold mapCallback, tryBlock, intensityOf, locationOf, originOf,
    canonicalCounty, member, index0.
  intros Hcb. split_members; unfold ret in *; open_arrays; simplify_eq/=;
    repeat match goal with
           | H : ?x = Some _ |- context [?x] => rewrite H
           end; eauto 10.
Qed.

Lemma length_replace_variant (s : jsstring) :
  length (replace tai_variant tai_standard s) = length s.
Proof.
  induction s as [|c s IH]; [reflexivity|]. simpl.
  destruct (33274 =? c)%N; simpl; [by rewrite drop_0 | by rewrite IH].
Qed.

Lemma length_unifyCounty (location : jsstring) :
  (length (unifyCounty location) ≤ 3)%nat.
Proof.
  unfold unifyCounty, substring0.
  destruct (includes _ _); rewrite ?length_replace_variant, length_take; lia.
Qed.

Lemma length_canonicalCounty (location : jsstring) :
  (length (canonicalCounty location) ≤ 3)%nat.
Proof.
  unfold canonicalCounty.
  etrans; [apply sublist_length, trim_sublist | apply length_unifyCounty].
Qed.

(** X4. A record of the output comes from a node of the catalog: its
    intensity is the node's first intensity value, its region the
    canonicalization of the node's location name (of the default name
    without a location member), its time the engine's reading of the
    node's first origin-time string (an Invalid Date when there is none). *)
Theorem extract_record_provenance
    (xmlData : option XmlData) (ev : EarthquakeEvent) :
  ev ∈ extractEarthquakeEvents Date_parse xmlData →
  ∃ events event,
    eventList xmlData = Some events ∧ event ∈ events
    ∧ intensityOf event = Some (shindo ev)
    ∧ (∃ name, locationOf event = Some name
               ∧ county ev = canonicalCounty name)
    ∧ (∃ origin, originOf event = Some origin
                 ∧ time ev = new_Date Date_parse (index0 origin)).
Proof.
  unfold extractEarthquakeEvents.
  destruct (eventList xmlData) as [events|];
    [|intros Hin; by apply elem_of_nil in Hin].
  intros Hin. apply elem_of_filter_non_null in Hin.
  apply list_elem_of_fmap in Hin as (event & Hcb & Hin).
  symmetry in Hcb.
  destruct (mapCallback_Some_fields _ _ Hcb) as (Hi & _ & Hl & Ho).
  exists events, event. auto.
Qed.

(** X5. Every record of the output has a non-empty intensity and a region
    of at most three code units without white space at either end. *)
Theorem extract_record_invariant
    (xmlData : option XmlData) (ev : EarthquakeEvent) :
  ev ∈ extractEarthquakeEvents Date_parse xmlData →
  shindo ev ≠ []
  ∧ (length (county ev) ≤ 3)%nat
  ∧ trim (county ev) = county ev
  ∧ trimStart (county ev) = county ev
  ∧ trimEnd (county ev) = county ev.
Proof.
  unfold extractEarthquakeEvents.
  destruct (eventList xmlData) as [events|];
    [|intros Hin; by apply elem_of_nil in Hin].
  intros Hin. apply elem_of_filter_non_null in Hin.
  apply list_elem_of_fmap in Hin as (event & Hcb & Hin).
  symmetry in Hcb.
  destruct (mapCallback_Some_fields _ _ Hcb)
    as (_ & Hs & (name & _ & ->) & _).
  split; [exact Hs|]. split; [apply length_canonicalCounty|].
  assert (Htrim : trim (canonicalCounty name) = canonicalCounty name)
    by apply trim_idem.
  split; [exact Htrim|].
  assert (Hstart : trimStart (canonicalCounty name) = canonicalCounty name).
  { unfold canonicalCounty, trim.
    apply (trimStart_fixed_prefix (trimStart (unifyCounty name)));
      [apply trimStart_idem | apply trimEnd_prefix]. }
  split; [exact Hstart|].
  unfold trim in Htrim. by rewrite Hstart in Htrim.
Qed.

(** X6. The callback emits a record exactly when the three reads succeed
    and the intensity is a non-empty string: the parse of the time string
    is not checked, and a node whose origin-time array is empty gives a
    record with an Invalid Date. *)
Theorem mapCallback_complete
    (event : RawEvent) (c : N) (v name : jsstring) (origin : list jsstring) :
  intensityOf event = Some (c :: v) →
  locationOf event = Some name →
  originOf event = Some origin →
  mapCallback Date_parse event
  = Some {| time := new_Date Date_parse (index0 origin);
            county := canonicalCounty name;
            shindo := c :: v |}
  ∧ (origin = [] →
     ∃ ev, mapCallback Date_parse event = Some ev ∧ time ev = InvalidDate).
Proof.
  unfold intensityOf, locationOf, originOf. intros Hi Hl Ho.
  assert (Hcb : mapCallback Date_parse event
                = Some {| time := new_Date Date_parse (index0 origin);
                          county := canonicalCounty name;
                          shindo := c :: v |}).
  { unfold mapCallback, tryBlock, canonicalCounty, member, index0.
    split_members; simplify_eq/=;
      repeat match goal with
             | H : ?x = Some _ |- context [?x] => rewrite H; simpl
             end; reflexivity. }
  split; [exact Hcb|]. intros ->. eexists. split; [exact Hcb|]. reflexivity.
Qed.

(** X7. A node whose location name or origin time cannot be read is
    dropped with a warning, whether or not it has an intensity. *)
Theorem tryBlock_warns_unreadable (event : RawEvent) :
  locationOf event = None ∨ originOf event = None →
  (∃ err, tryBlock Date_parse event = inl err)
  ∧ mapCallback Date_parse event = None
  ∧ silentlyDropped Date_parse event = false.
Proof.
  intros Hbad.
  assert (Hthrow : ∃ err, tryBlock Date_parse event = inl err).
  { destruct (tryBlock Date_parse event) as [err | [ev|]] eqn:Htry;
      [by eexists | |].
    - assert (Hcb : mapCallback Date_parse event = Some ev)
        by (unfold mapCallback; by rewrite Htry).
      destruct (mapCallback_Some_fields _ _ Hcb)
        as (_ & _ & (name & Hl & _) & (origin & Ho & _)).
      destruct Hbad; congruence.
    - exfalso. revert Htry Hbad.
      unfold tryBlock, locationOf, originOf, member, index0.
      intros Htry Hbad. split_members; unfold ret, throw in *;
        open_arrays; simplify_eq/=; destruct Hbad; simplify_eq. }
  destruct Hthrow as [err Herr].
  split; [by exists err|].
  unfold mapCallback, silentlyDropped. by rewrite Herr.
Qed.

End NormalizerMore.

Lemma extract_isolates_failure_witness :
  extractEarthquakeEvents (λ _, ValidDate 0)
    (catalogOf ([node_without_location]
                ++ {| Shindo := None; Location := None;
                      EarthquakeInfo := None |} :: [node_doubled_variant]))
  = extractEarthquakeEvents (λ _, ValidDate 0)
      (catalogOf ([node_without_location] ++ [node_doubled_variant])).
Proof.
  apply (extract_isolates_failure (λ _, ValidDate 0)
           [node_without_location] [node_doubled_variant]
           {| Shindo := None; Location := None; EarthquakeInfo := None |}
           (TypeError "0")).
  reflexivity.
Defined.

Lemma extract_record_provenance_witness :
  ∃ events event,
    eventList sample_catalog = Some events ∧ event ∈ events
    ∧ intensityOf event = Some (lit "4")
    ∧ (∃ name, locationOf event = Some name
               ∧ unknown_county_prefix = canonicalCounty name)
    ∧ (∃ origin, originOf event = Some origin
                 ∧ ValidDate 0 = new_Date (λ _, ValidDate 0) (index0 origin)).
Proof.
  apply (extract_record_provenance (λ _, ValidDate 0) sample_catalog
           {| time := ValidDate 0; county := unknown_county_prefix;
              shindo := lit "4" |}).
  left.
Defined.

Lemma extract_record_invariant_witness :
  lit "4" ≠ [] ∧ (length unknown_county_prefix ≤ 3)%nat
  ∧ trim unknown_county_prefix = unknown_county_prefix
  ∧ trimStart unknown_county_prefix = unknown_county_prefix
  ∧ trimEnd unknown_county_prefix = unknown_county_prefix.
Proof.
  apply (extract_record_invariant (λ _, ValidDate 0) sample_catalog
           {| time := ValidDate 0; county := unknown_county_prefix;
              shindo := lit "4" |}).
  left.
Defined.

Lemma mapCallback_complete_witness :
  ∃ ev, mapCallback (λ _, ValidDate 0)
          {| Shindo := Some [ {| ShindoValue := Some [lit "5弱"] |} ];
             Location := None;
             EarthquakeInfo := Some [ {| OriginTime := Some [] |} ] |}
        = Some ev
        ∧ time ev = InvalidDate.
Proof.
  eapply (mapCallback_complete (λ _, ValidDate 0)
            {| Shindo := Some [ {| ShindoValue := Some [lit "5弱"] |} ];
               Location := None;
               EarthquakeInfo := Some [ {| OriginTime := Some [] |} ] |});
    reflexivity.
Defined.

Lemma tryBlock_warns_unreadable_witness :
  mapCallback (λ _, ValidDate 0)
    {| Shindo := Some [ {| ShindoValue := Some [lit "4"] |} ];
       Location := Some [ {| LocationName := Some [lit "花蓮縣"] |} ];
       EarthquakeInfo := None |}
  = None.
Proof.
  apply (tryBlock_warns_unreadable (λ _, ValidDate 0)
           {| Shindo := Some [ {| ShindoValue := Some [lit "4"] |} ];
              Location := Some [ {| LocationName := Some [lit "花蓮縣"] |} ];
              EarthquakeInfo := None |}).
  right. reflexivity.
Defined.

(* ===================================================================== *)
(** ** The region of a record: white space and remaining glyphs *)
(* ===================================================================== *)

Section RegionMore.

Implicit Types (s t : jsstring) (c : N).

Local Arguments N.eqb : simpl never.

Lemma variantCount_app s t :
  variantCount (s ++ t) = (variantCount s + variantCount t)%nat.
Proof. unfold variantCount. by rewrite filter_app, length_app. Qed.

Lemma variantCount_reverse s : variantCount (reverse s) = variantCount s.
Proof.
  induction s as [|c s IH]; [reflexivity|].
  rewrite reverse_cons, variantCount_app, IH, !variantCount_cons.
  change (variantCount []) with 0%nat. lia.
Qed.

Lemma variantCount_trimStart s : variantCount (trimStart s) = variantCount s.
Proof.
  induction s as [|c s IH]; [reflexivity|]. simpl.
  destruct (is_space c) eqn:Hc; [|reflexivity].
  rewrite IH, variantCount_cons.
  destruct (N.eqb_spec 33274 c) as [<- | _]; [discriminate Hc | reflexivity].
Qed.

Lemma variantCount_trim s : variantCount (trim s) = variantCount s.
Proof.
  unfold trim, trimEnd.
  by rewrite variantCount_reverse, variantCount_trimStart,
    variantCount_reverse, variantCount_trimStart.
Qed.

Lemma variantCount_replace s :
  variantCount (replace tai_variant tai_standard s)
  = (variantCount s - 1)%nat.
Proof.
  induction s as [|c s IH]; [reflexivity|]. simpl.
  destruct (N.eqb_spec 33274 c) as [<- | Hne]; simpl.
  - rewrite drop_0. change (tai_standard ++ s) with (21488%N :: s).
    rewrite !variantCount_cons.
    change (33274 =? 21488)%N with false. unfold variantCount. lia.
  - rewrite !variantCount_cons, IH.
    destruct (N.eqb_spec 33274 c); [contradiction | reflexivity].
Qed.

(** X8. The region keeps all the alternate glyphs of the first three code
    units of the name but one: it is free of them exactly when they hold
    at most one. *)
Theorem canonicalCounty_variantCount s :
  variantCount (canonicalCounty s)
  = (variantCount (substring0 3 s) - 1)%nat
  ∧ (variantCount (canonicalCounty s) = 0%nat
     ↔ (variantCount (substring0 3 s) ≤ 1)%nat).
Proof.
  assert (Hcount : variantCount (canonicalCounty s)
                   = (variantCount (substring0 3 s) - 1)%nat).
  { unfold canonicalCounty, unifyCounty.
    rewrite variantCount_trim, includes_variant.
    destruct (Nat.eqb_spec (variantCount (substring0 3 s)) 0) as [H0 | _];
      cbn [negb]; [rewrite H0; reflexivity | apply variantCount_replace]. }
  split; [exact Hcount|]. rewrite Hcount. lia.
Qed.

Lemma trimStart_spaces s :
  Forall (λ c, is_space c = true) s → trimStart s = [].
Proof.
  induction 1 as [|c s Hc _ IH]; [reflexivity|]. simpl. by rewrite Hc.
Qed.

Lemma variantCount_spaces s :
  Forall (λ c, is_space c = true) s → variantCount s = 0%nat.
Proof.
  induction 1 as [|c s Hc _ IH]; [reflexivity|].
  rewrite variantCount_cons, IH.
  destruct (N.eqb_spec 33274 c) as [<- | _]; [discriminate Hc | reflexivity].
Qed.

(** X9. The name is cut to three code units before it is trimmed: when
    these three are white space the region is the empty string, whatever
    follows them. *)
Theorem canonicalCounty_blank_prefix s :
  Forall (λ c, is_space c = true) (substring0 3 s) →
  canonicalCounty s = [].
Proof.
  intros Hblank. unfold canonicalCounty, unifyCounty.
  rewrite includes_variant, (variantCount_spaces _ Hblank).
  cbn [Nat.eqb negb]. unfold trim. by rewrite (trimStart_spaces _ Hblank).
Qed.

End RegionMore.

Lemma canonicalCounty_blank_prefix_witness :
  canonicalCounty (lit "   臺北市") = [].
Proof.
  apply (canonicalCounty_blank_prefix (lit "   臺北市")).
  repeat constructor.
Defined.

(* ===================================================================== *)
(** ** The frequency table: rows, merged feeds *)
(* ===================================================================== *)

Section TableMore.

Implicit Types (event : EarthquakeEvent) (events : list EarthquakeEvent).
Implicit Types (region intensity : jsstring).

(** X10. The frequency table has a row for a region exactly when an
    event names it. Under a label the row holds nothing when no event of
    the region has the label, and nothing ever under [__proto__]; under
    the name of a function inherited from [Object.prototype] it holds the
    text of that function followed by one digit 1 for each event of the
    group; under any other label it holds the number of events of the
    group. *)
Theorem buildStats_lookup events region intensity :
  (is_Some (buildStats events !! region)
   ↔ ∃ e, e ∈ events ∧ county e = region)
  ∧ ∀ row : gmap jsstring JSValue,
      buildStats events !! region = Some row →
      (occurrences region intensity events = 0%Z → row !! intensity = None)
      ∧ (intensity = proto_key → row !! intensity = None)
      ∧ (∀ name,
           intensity ≠ proto_key →
           inheritedFunction intensity = Some name →
           (0 < occurrences region intensity events)%Z →
           row !! intensity
           = Some (Str (function_prefix ++ name ++ native_suffix
                        ++ replicate
                             (Z.to_nat (occurrences region intensity events))
                             49%N)))
      ∧ (inheritedMember intensity = false →
         (0 < occurrences region intensity events)%Z →
         row !! intensity
         = Some (Num (occurrences region intensity events))).
Proof.
  split; [apply buildStats_row|].
  intros row Hrow. rewrite (buildStats_row_lookup _ _ _ _ Hrow).
  split; [|split; [|split]].
  - intros ->. unfold storedCount. simpl. by case_decide.
  - intros ->. unfold storedCount. by rewrite decide_True.
  - intros name Hp Hname Hpos. unfold storedCount.
    rewrite decide_False, Hname by done.
    destruct (Z.to_nat _) eqn:Hk; [lia|].
    unfold nativeSource. by rewrite <- !app_assoc.
  - intros Hplain Hpos. by apply storedCount_plain.
Qed.

Lemma occurrences_app events1 events2 region intensity :
  occurrences region intensity (events1 ++ events2)
  = (occurrences region intensity events1
     + occurrences region intensity events2)%Z.
Proof.
  unfold occurrences. rewrite filter_app, length_app. lia.
Qed.

Lemma countOf_buildStats events region intensity :
  inheritedMember intensity = false →
  countOf (buildStats events) region intensity
  = occurrences region intensity events.
Proof.
  intros Hplain. unfold countOf. rewrite cellOf_buildStats.
  destruct (decide (occurrences region intensity events = 0%Z)) as [H0 | Hn].
  - rewrite H0. apply inheritedMember_false in Hplain as [Hp _].
    unfold storedCount. simpl. by rewrite decide_False.
  - rewrite storedCount_plain; [reflexivity | exact Hplain |].
    pose proof (occurrences_nonneg events region intensity). lia.
Qed.

(** X11. Nothing is deduplicated. Under a label that is no member
    inherited from [Object.prototype], the count the table holds for a
    group is the number of its events, and over two merged sequences it is
    the sum of the counts over each: an event present in both feeds is
    counted twice. *)
Theorem buildStats_merge_adds events1 events2 region intensity :
  inheritedMember intensity = false →
  countOf (buildStats events1) region intensity
  = occurrences region intensity events1
  ∧ countOf (buildStats (events1 ++ events2)) region intensity
    = (countOf (buildStats events1) region intensity
       + countOf (buildStats events2) region intensity)%Z
  ∧ countOf (buildStats (events1 ++ events1)) region intensity
    = (2 * countOf (buildStats events1) region intensity)%Z.
Proof.
  intros Hplain. rewrite !countOf_buildStats, !occurrences_app by done. lia.
Qed.

End TableMore.

(* ===================================================================== *)
(** ** The window and the result over merged and reordered sequences *)
(* ===================================================================== *)

Section WindowMore.

Variable exp_approx : float -> float.

Implicit Types (e : EarthquakeEvent) (events : list EarthquakeEvent).

Lemma earlier_min (a b : Z) e :
  earlier (Z.min a b) e = Z.min a (earlier b e).
Proof.
  unfold earlier. destruct (time e) as [t|]; [|reflexivity].
  destruct (Z.ltb_spec t (Z.min a b)), (Z.ltb_spec t b); lia.
Qed.

Lemma foldl_earlier_min events (a b : Z) :
  foldl earlier (Z.min a b) events = Z.min a (foldl earlier b events).
Proof.
  revert b. induction events as [|e events IH]; intros b; simpl;
    [reflexivity|].
  by rewrite earlier_min, IH.
Qed.

Lemma minHistoryDate_app (now : Z) (events1 events2 : list EarthquakeEvent) :
  minHistoryDate now (events1 ++ events2)
  = Z.min (minHistoryDate now events1) (minHistoryDate now events2).
Proof.
  unfold minHistoryDate. rewrite foldl_app.
  pose proof (foldl_earlier_le events1 now) as Hle.
  rewrite <- (Z.min_l _ _ Hle) at 1. apply foldl_earlier_min.
Qed.

(** X12. Merging two sequences takes the earlier of their two starting
    points: the window of the merged sequence is the longer of the two
    windows. *)
Theorem window_of_merged (now : Z) (events1 events2 : list EarthquakeEvent) :
  minHistoryDate now (events1 ++ events2)
  = Z.min (minHistoryDate now events1) (minHistoryDate now events2)
  ∧ totalAnalysisYears now (events1 ++ events2)
    = Rmax (totalAnalysisYears now events1) (totalAnalysisYears now events2).
Proof.
  split; [apply minHistoryDate_app|].
  unfold totalAnalysisYears. rewrite minHistoryDate_app, msPerYear_value.
  destruct (Z.min_spec (minHistoryDate now events1)
              (minHistoryDate now events2)) as [[Hlt ->] | [Hle ->]].
  - apply IZR_lt in Hlt. rewrite Rmax_left; [reflexivity | lra].
  - apply IZR_le in Hle. rewrite Rmax_right; [reflexivity | lra].
Qed.

Lemma earlier_swap (m : Z) (x y : EarthquakeEvent) :
  earlier (earlier m x) y = earlier (earlier m y) x.
Proof.
  unfold earlier. destruct (time x) as [tx|], (time y) as [ty|]; try reflexivity.
  destruct (Z.ltb_spec tx m), (Z.ltb_spec ty m);
    repeat match goal with
           | |- context [(?a <? ?b)%Z] => destruct (Z.ltb_spec a b)
           end; lia.
Qed.

Lemma foldl_earlier_Permutation (events1 events2 : list EarthquakeEvent) :
  events1 ≡ₚ events2 →
  ∀ m, foldl earlier m events1 = foldl earlier m events2.
Proof.
  induction 1 as [|x l1 l2 _ IH|x y l|l1 l2 l3 _ IH1 _ IH2]; intros m; simpl.
  - reflexivity.
  - apply IH.
  - by rewrite earlier_swap.
  - by rewrite IH1, IH2.
Qed.

(** X13. The result does not depend on the order of the events: two
    sequences with the same events, in any order, give the same result
    (so the order in which the feeds are merged is immaterial). *)
Theorem analyze_Permutation
    (now : Z) (events1 events2 : list EarthquakeEvent) :
  events1 ≡ₚ events2 →
  analyzeEarthquakeData exp_approx now events1
  = analyzeEarthquakeData exp_approx now events2.
Proof.
  intros Hperm. unfold analyzeEarthquakeData, totalAnalysisYears,
    totalAnalysisYearsNumber, minHistoryDate.
  rewrite (foldl_earlier_Permutation _ _ Hperm now).
  by rewrite (buildStats_Permutation _ _ Hperm).
Qed.

Lemma long_window_has_event (now : Z) events :
  ¬ (totalAnalysisYears now events < 1)%R → ∃ e, e ∈ events.
Proof.
  intros Hlong.
  destruct (foldl_earlier_attained events now) as [Heq | (e & Hin & _)];
    [|by exists e].
  exfalso. apply Hlong. apply short_window_iff.
  unfold minHistoryDate. rewrite Heq. lia.
Qed.

(** X14. The result is the empty mapping exactly when the window is
    shorter than a year: a window of a year or more always comes with an
    event, hence with a region. *)
Theorem analyze_empty_iff (now : Z) events :
  analyzeEarthquakeData exp_approx now events = ∅
  ↔ (totalAnalysisYears now events < 1)%R.
Proof.
  split; [|apply analyze_short_window].
  intros Hempty.
  destruct (Rlt_dec (totalAnalysisYears now events) 1) as [Hshort | Hlong];
    [exact Hshort | exfalso].
  destruct (long_window_has_event _ _ Hlong) as [e Hin].
  rewrite (analyze_long_window _ _ _ Hlong) in Hempty.
  apply fmap_empty_inv in Hempty.
  assert (Hrow : is_Some (buildStats events !! county e)).
  { apply buildStats_row. by exists e. }
  rewrite Hempty, lookup_empty in Hrow. by destruct Hrow.
Qed.

Lemma storedCount_is_Some (intensity : jsstring) (k : nat) :
  is_Some (storedCount intensity k) ↔ intensity ≠ proto_key ∧ k ≠ O.
Proof.
  unfold storedCount. case_decide as Hp.
  - split; [intros [v Hv]; discriminate | intros [Hne _]; done].
  - destruct k as [|k].
    + split; [intros [v Hv]; discriminate | intros [_ Hk]; done].
    + split; [done|]. intros _.
      destruct (inheritedFunction intensity); by eexists.
Qed.

(** X15. Under every label but [__proto__], the result has a cell for
    a (region, intensity) pair exactly when the window is a year or more
    and an event of the sequence has that region and that intensity; and
    under [__proto__] it never has a cell, whatever the events. *)
Theorem analyze_cell_iff (now : Z) events (region intensity : jsstring) :
  (intensity ≠ proto_key →
   ((∃ row : gmap jsstring (gmap jsstring float),
        analyzeEarthquakeData exp_approx now events !! region = Some row
        ∧ is_Some (row !! intensity))
    ↔ ¬ (totalAnalysisYears now events < 1)%R
      ∧ ∃ e, e ∈ events ∧ county e = region ∧ shindo e = intensity))
  ∧ ¬ ∃ row : gmap jsstring (gmap jsstring float),
        analyzeEarthquakeData exp_approx now events !! region = Some row
        ∧ is_Some (row !! proto_key).
Proof.
  split.
  - intros Hp. split.
    + intros (row & Hrow & [cell Hcell]).
      destruct (analyze_cell _ _ _ _ _ _ _ Hrow Hcell)
        as (Hlong & counts & count & Hcounts & Hcount & _).
      split; [exact Hlong|].
      rewrite (buildStats_row_lookup _ _ _ _ Hcounts) in Hcount.
      assert (Hsome : is_Some (storedCount intensity
                (Z.to_nat (occurrences region intensity events))))
        by (by eexists).
      apply storedCount_is_Some in Hsome as [_ Hk].
      apply occurrences_pos. lia.
    + intros (Hlong & Hev).
      assert (Hrowc : is_Some (buildStats events !! region)).
      { apply buildStats_row. destruct Hev as (e & Hin & Hc & _).
        by exists e. }
      destruct Hrowc as [counts Hcounts].
      apply occurrences_pos in Hev.
      assert (Hsome : is_Some (counts !! intensity)).
      { rewrite (buildStats_row_lookup _ _ _ _ Hcounts).
        apply storedCount_is_Some. split; [exact Hp | lia]. }
      destruct Hsome as [count Hcount].
      destruct (analyze_of_table exp_approx _ _ _ _ _ _ Hlong Hcounts Hcount)
        as (row & Hrow & Hcell).
      exists row. split; [exact Hrow | by eexists].
  - intros (row & Hrow & [cell Hcell]).
    destruct (analyze_cell _ _ _ _ _ _ _ Hrow Hcell)
      as (_ & counts & count & Hcounts & Hcount & _).
    rewrite (buildStats_row_lookup _ _ _ _ Hcounts) in Hcount.
    unfold storedCount in Hcount. by rewrite decide_True in Hcount.
Qed.

(** X16. An event whose time is an Invalid Date leaves the window as
    it is without it, and is an event of its group like any other: under
    a label that is no member inherited from [Object.prototype], the count
    of its group is one more with it than without it. *)
Theorem invalid_date_counted_not_dated
    (now : Z) (events1 events2 : list EarthquakeEvent) e :
  time e = InvalidDate →
  totalAnalysisYears now (events1 ++ e :: events2)
  = totalAnalysisYears now (events1 ++ events2)
  ∧ occurrences (county e) (shindo e) (events1 ++ e :: events2)
    = (occurrences (county e) (shindo e) (events1 ++ events2) + 1)%Z
  ∧ (inheritedMember (shindo e) = false →
     countOf (buildStats (events1 ++ e :: events2)) (county e) (shindo e)
     = (countOf (buildStats (events1 ++ events2)) (county e) (shindo e)
        + 1)%Z).
Proof.
  intros Hinvalid.
  assert (Hocc : occurrences (county e) (shindo e) (events1 ++ e :: events2)
                 = (occurrences (county e) (shindo e) (events1 ++ events2)
                    + 1)%Z).
  { rewrite !occurrences_app.
    unfold occurrences at 2. rewrite filter_cons, decide_True by done.
    unfold occurrences. simpl. lia. }
  split; [|split; [exact Hocc|]].
  - unfold totalAnalysisYears, minHistoryDate. rewrite !foldl_app. simpl.
    unfold earlier at 2. by rewrite Hinvalid.
  - intros Hplain. by rewrite !countOf_buildStats, Hocc.
Qed.

(** X17. Events dated at or after the reference time do not open a
    window: when no event is earlier than [now] the window is empty and
    so is the result. *)
Theorem analyze_no_past_event (now : Z) events :
  (∀ e t, e ∈ events → time e = ValidDate t → (now ≤ t)%Z) →
  minHistoryDate now events = now
  ∧ totalAnalysisYears now events = 0%R
  ∧ analyzeEarthquakeData exp_approx now events = ∅.
Proof.
  intros Hfuture.
  assert (Hmin : minHistoryDate now events = now).
  { unfold minHistoryDate.
    destruct (foldl_earlier_attained events now) as [Heq | (e & Hin & Ht)];
      [exact Heq|].
    pose proof (Hfuture _ _ Hin Ht). pose proof (foldl_earlier_le events now).
    lia. }
  assert (Hzero : totalAnalysisYears now events = 0%R).
  { unfold totalAnalysisYears. rewrite Hmin, msPerYear_value. lra. }
  split; [exact Hmin|]. split; [exact Hzero|].
  apply analyze_short_window. rewrite Hzero. lra.
Qed.

End WindowMore.

Lemma buildStats_merge_adds_witness :
  countOf (buildStats (taipei_events ++ taipei_events)) (lit "台北") (lit "3")
  = (2 * countOf (buildStats taipei_events) (lit "台北") (lit "3"))%Z.
Proof.
  apply (buildStats_merge_adds taipei_events taipei_events
           (lit "台北") (lit "3")).
  reflexivity.
Defined.

Lemma analyze_Permutation_witness :
  analyzeEarthquakeData sample_exp reference_time
    (recent_event :: taipei_events)
  = analyzeEarthquakeData sample_exp reference_time
      (taipei_events ++ [recent_event]).
Proof.
  apply (analyze_Permutation sample_exp reference_time
           (recent_event :: taipei_events) (taipei_events ++ [recent_event])).
  apply Permutation_cons_append.
Defined.

Lemma invalid_date_counted_not_dated_witness :
  totalAnalysisYears reference_time
    (taipei_events
     ++ {| time := InvalidDate; county := lit "台北"; shindo := lit "3" |}
        :: [])
  = totalAnalysisYears reference_time (taipei_events ++ []).
Proof.
  apply (invalid_date_counted_not_dated reference_time taipei_events []
           {| time := InvalidDate; county := lit "台北"; shindo := lit "3" |}).
  reflexivity.
Defined.

Lemma analyze_no_past_event_witness :
  analyzeEarthquakeData sample_exp 1712102289000 [recent_event] = ∅.
Proof.
  apply (analyze_no_past_event sample_exp 1712102289000 [recent_event]).
  intros e t Hin Ht. apply list_elem_of_singleton in Hin. subst e.
  injection Ht as <-. reflexivity.
Defined.

(* ===================================================================== *)
(** ** Whole runs of [main] *)
(* ===================================================================== *)

Section MainMore.

Implicit Types (w : World).

Lemma or_else_nonempty (a : option jsstring) (b : jsstring) :
  b ≠ [] → or_else a b ≠ [].
Proof. destruct a as [[|c s]|]; simpl; [done | discriminate | done]. Qed.

(** The outcomes of the [try] block, one by one. *)
Lemma tryMain_cases w (updaterName : jsstring) :
  (∃ e, fetched w = inl e ∧ tryMain w updaterName = ([], inl e))
  ∨ (∃ cur hist,
       fetched w = inr (cur, hist) ∧ mergedEvents w cur hist = []
       ∧ tryMain w updaterName = ([], inl (Error no_events_message)))
  ∨ (∃ cur hist doc,
       fetched w = inr (cur, hist) ∧ mergedEvents w cur hist ≠ []
       ∧ LatestDoc.updateTime doc = Timestamp_now w
       ∧ LatestDoc.updaterName doc = updaterName
       ∧ LatestDoc.updaterUID doc = system_uid
       ∧ LatestDoc.analysisData doc
         = analyzeEarthquakeData (Math_exp_approx w) (clock w) (mergedEvents w cur hist)
       ∧ LatestDoc.disclaimer doc = disclaimer_text
       ∧ LatestDoc.totalEvents doc
         = Z.of_nat (length (mergedEvents w cur hist))
       ∧ ((∃ e, set_latest w doc = inl e
                ∧ tryMain w updaterName = ([SetLatest doc], inl e))
          ∨ (∃ entry,
               set_latest w doc = inr tt
               ∧ HistoryDoc.updateTime entry = Timestamp_now w
               ∧ HistoryDoc.updaterName entry = updaterName
               ∧ HistoryDoc.updaterUID entry = system_uid
               ∧ HistoryDoc.status entry = status_success
               ∧ HistoryDoc.eventCount entry
                 = Some (LatestDoc.totalEvents doc)
               ∧ HistoryDoc.errorMessage entry = None
               ∧ tryMain w updaterName
                 = ([SetLatest doc; AddHistory entry],
                    add_history w entry)))).
Proof.
  unfold tryMain, mergedEvents.
  destruct (fetched w) as [e | [cur hist]]; [left; by exists e|].
  right.
  destruct (extractEarthquakeEvents (parseDate w) cur
            ++ extractEarthquakeEvents (parseDate w) hist)
    as [|ev evs] eqn:Hall.
  { left. exists cur, hist. by rewrite Hall. }
  right. exists cur, hist. rewrite Hall. simpl.
  match goal with |- context [set_latest w ?d] => exists d end.
  split; [reflexivity|]. split; [discriminate|].
  do 6 (split; [reflexivity|]).
  destruct (set_latest w _) as [e | []].
  - left. by exists e.
  - right.
    match goal with |- context [add_history w ?h] => exists h end.
    do 7 (split; [reflexivity|]). reflexivity.
Qed.

(** X20. Nothing is handed to the store before the key is read and the
    SDK initialised: without the key the process exits with status 1 and
    no write, and any write means the key was there and the
    initialisation went through. *)
Theorem main_needs_credentials w :
  (FIREBASE_SERVICE_ACCOUNT_JSON w = None
   ∨ FIREBASE_SERVICE_ACCOUNT_JSON w = Some [] →
   main w = {| writes := []; exit := Exit1 |})
  ∧ (writes (main w) ≠ [] →
     ∃ c json,
       FIREBASE_SERVICE_ACCOUNT_JSON w = Some (c :: json)
       ∧ initializeApp w (c :: json) = inr tt).
Proof.
  unfold main, getFirestoreInstance. split.
  - intros [-> | ->]; reflexivity.
  - destruct (FIREBASE_SERVICE_ACCOUNT_JSON w) as [[|c json]|]; simpl;
      [intros Hne; exfalso; by apply Hne | |
       intros Hne; exfalso; by apply Hne].
    destruct (initializeApp w (c :: json)) as [e | []] eqn:Happ; simpl.
    + intros Hne. exfalso. by apply Hne.
    + intros _. by exists c, json.
Qed.

(** X21. A run that reaches its end has handed exactly two documents to
    the store, both accepted: the snapshot, then a history entry with the
    same time stamp and updater, whose event count is the snapshot's
    total, the number of events of the two feeds, which is not zero. *)
Theorem main_returned_shape w :
  exit (main w) = Returned →
  ∃ cur hist doc entry,
    fetched w = inr (cur, hist)
    ∧ writes (main w) = [SetLatest doc; AddHistory entry]
    ∧ set_latest w doc = inr tt ∧ add_history w entry = inr tt
    ∧ LatestDoc.analysisData doc
      = analyzeEarthquakeData (Math_exp_approx w) (clock w) (mergedEvents w cur hist)
    ∧ LatestDoc.totalEvents doc = Z.of_nat (length (mergedEvents w cur hist))
    ∧ (0 < LatestDoc.totalEvents doc)%Z
    ∧ HistoryDoc.eventCount entry = Some (LatestDoc.totalEvents doc)
    ∧ HistoryDoc.updateTime entry = LatestDoc.updateTime doc
    ∧ HistoryDoc.updaterName entry = LatestDoc.updaterName doc
    ∧ HistoryDoc.status entry = status_success.
Proof.
  unfold main. destruct (getFirestoreInstance w) as [stop | []] eqn:Hinit.
  { simpl. intros ->. unfold getFirestoreInstance in Hinit.
    destruct (FIREBASE_SERVICE_ACCOUNT_JSON w) as [[|c json]|];
      try discriminate.
    revert Hinit. destruct (initializeApp w (c :: json)); discriminate. }
  destruct (tryMain_cases w (or_else (GITHUB_ACTOR w) default_actor))
    as [(e & _ & ->) | [(cur & hist & _ & _ & ->)
        | (cur & hist & doc & Hf & Hne & Ht & Hn & _ & Ha & _ & Htot
           & [(e & _ & ->) | (entry & Hset & Het & Hen & _ & Hs & Hc & _
                              & ->)])]];
    simpl; try (destruct (add_history w _); discriminate).
  destruct (add_history w entry) as [e | []] eqn:Hadd; simpl;
    [destruct (add_history w (failedEntry _ _ _)); discriminate|].
  intros _. exists cur, hist, doc, entry.
  repeat split; try assumption; try congruence.
  rewrite Htot. destruct (mergedEvents w cur hist); [done | simpl; lia].
Qed.

(** X22. When the fetch fails, or the two feeds give no event at all,
    the only document of the run is one FAILED entry carrying the
    message of the failure: nothing is written to the snapshot. *)
Theorem main_failure_before_write w :
  getFirestoreInstance w = inr tt →
  ((∃ e, fetched w = inl e)
   ∨ ∃ cur hist, fetched w = inr (cur, hist)
                 ∧ mergedEvents w cur hist = []) →
  ∃ error,
    writes (main w) = [AddHistory (failedEntry w (updaterNameOf w) error)]
    ∧ exit (main w) ≠ Returned
    ∧ (fetched w = inl error
       ∨ error = Error no_events_message ∧ ∃ xmls, fetched w = inr xmls).
Proof.
  intros Hinit Hfail. unfold main, updaterNameOf. rewrite Hinit.
  destruct (tryMain_cases w (or_else (GITHUB_ACTOR w) default_actor))
    as [(e & Hf & ->) | [(cur & hist & Hf & _ & ->)
        | (cur & hist & doc & Hf & Hne & _)]].
  - exists e. simpl. split; [reflexivity|].
    split; [destruct (add_history w _); discriminate | by left].
  - exists (Error no_events_message). simpl. split; [reflexivity|].
    split; [destruct (add_history w _); discriminate|].
    right. split; [reflexivity | by eexists].
  - exfalso. destruct Hfail as [[e He] | (cur' & hist' & Hf' & Hnil)];
      congruence.
Qed.

(** X23. The snapshot is handed over at most once, before anything else,
    and never for an empty set of events: it holds the analysis of the
    merged events, their number, and the fixed disclaimer. *)
Theorem main_snapshot_guard w (doc : LatestDoc.t) :
  SetLatest doc ∈ writes (main w) →
  ∃ cur hist rest,
    fetched w = inr (cur, hist)
    ∧ writes (main w) = SetLatest doc :: rest
    ∧ (∀ doc', SetLatest doc' ∉ rest)
    ∧ mergedEvents w cur hist ≠ []
    ∧ LatestDoc.analysisData doc
      = analyzeEarthquakeData (Math_exp_approx w) (clock w) (mergedEvents w cur hist)
    ∧ LatestDoc.totalEvents doc = Z.of_nat (length (mergedEvents w cur hist))
    ∧ LatestDoc.disclaimer doc = disclaimer_text.
Proof.
  unfold main. destruct (getFirestoreInstance w) as [stop | []]; simpl.
  { intros Hin. by apply elem_of_nil in Hin. }
  destruct (tryMain_cases w (or_else (GITHUB_ACTOR w) default_actor))
    as [(e & _ & ->) | [(cur & hist & _ & _ & ->)
        | (cur & hist & doc0 & Hf & Hne & _ & _ & _ & Ha & Hd & Htot
           & [(e & _ & ->) | (entry & _ & _ & _ & _ & _ & _ & _ & ->)])]];
    simpl; intros Hin.
  - apply list_elem_of_singleton in Hin. discriminate.
  - apply list_elem_of_singleton in Hin. discriminate.
  - assert (doc = doc0) as ->.
    { apply elem_of_cons in Hin as [[= ->] | Hin]; [done|].
      apply list_elem_of_singleton in Hin. discriminate. }
    exists cur, hist. eexists. split; [exact Hf|]. split; [reflexivity|].
    split; [|auto].
    intros doc' Hin'. apply list_elem_of_singleton in Hin'. discriminate.
  - destruct (add_history w entry) as [e | []] eqn:Hadd; simpl in Hin |- *;
      (assert (doc = doc0) as ->;
       [apply elem_of_cons in Hin as [[= ->] | Hin]; [done|];
        repeat (apply elem_of_cons in Hin as [Hin | Hin]; [discriminate|]);
        by apply elem_of_nil in Hin|]);
      exists cur, hist; eexists;
      (split; [exact Hf|]); (split; [reflexivity|]); (split; [|auto]);
      intros doc' Hin';
      repeat (apply elem_of_cons in Hin' as [Hin' | Hin']; [discriminate|]);
      by apply elem_of_nil in Hin'.
Qed.

(** X24. Once the store is initialised, every run that does not reach its
    end finishes by handing over a FAILED entry whose error message is
    never empty: the message of the error caught when it has one, the
    text 未知錯誤 when that message is empty. When the store accepts
    the entry the code goes on to [process.exit(1)]; when the store
    refuses it, the refusal leaves [main], which has no handler of its
    own. *)
Theorem main_failure_logged w :
  getFirestoreInstance w = inr tt →
  exit (main w) ≠ Returned →
  ∃ error,
    last (writes (main w))
    = Some (AddHistory (failedEntry w (updaterNameOf w) error))
    ∧ HistoryDoc.status (failedEntry w (updaterNameOf w) error)
      = status_failed
    ∧ (∃ m, HistoryDoc.errorMessage (failedEntry w (updaterNameOf w) error)
            = Some m
            ∧ m ≠ []
            ∧ (message error ≠ [] → m = message error)
            ∧ (message error = [] → m = lit "未知錯誤"))
    ∧ (add_history w (failedEntry w (updaterNameOf w) error) = inr tt →
       exit (main w) = Exit1)
    ∧ (∀ e, add_history w (failedEntry w (updaterNameOf w) error) = inl e →
            exit (main w) = Rejected e).
Proof.
  intros Hinit. unfold main, updaterNameOf. rewrite Hinit.
  destruct (tryMain w (or_else (GITHUB_ACTOR w) default_actor))
    as [done [error | []]]; simpl; [|congruence].
  intros _. exists error. split; [apply last_snoc|].
  split; [reflexivity|]. split.
  - eexists. split; [reflexivity|]. split; [|split].
    + destruct (message error); discriminate.
    + destruct (message error); [congruence | reflexivity].
    + intros ->. reflexivity.
  - destruct (add_history w _) as [e | []]; split; congruence.
Qed.

(** X25. A window shorter than a year is not a failure: when the fetch
    gives at least one event and the store accepts what it is given, the
    run reaches its end with the snapshot and a SUCCESS entry, and with a
    short window the snapshot carries an empty analysis. *)
Theorem main_succeeds w (cur hist : option XmlData) :
  getFirestoreInstance w = inr tt →
  fetched w = inr (cur, hist) →
  mergedEvents w cur hist ≠ [] →
  (∀ doc, set_latest w doc = inr tt) →
  (∀ entry, add_history w entry = inr tt) →
  exit (main w) = Returned
  ∧ ∃ doc entry,
      writes (main w) = [SetLatest doc; AddHistory entry]
      ∧ HistoryDoc.status entry = status_success
      ∧ LatestDoc.analysisData doc
        = analyzeEarthquakeData (Math_exp_approx w) (clock w) (mergedEvents w cur hist)
      ∧ ((totalAnalysisYears (clock w) (mergedEvents w cur hist) < 1)%R →
         LatestDoc.analysisData doc = ∅).
Proof.
  intros Hinit Hf Hne Hset Hadd. unfold main. rewrite Hinit.
  destruct (tryMain_cases w (or_else (GITHUB_ACTOR w) default_actor))
    as [(e & Hf' & _) | [(cur' & hist' & Hf' & Hnil & _)
        | (cur' & hist' & doc & Hf' & _ & _ & _ & _ & Ha & _ & _
           & [(e & Hset' & _) | (entry & _ & _ & _ & _ & Hs & _ & _
                                 & ->)])]].
  - congruence.
  - rewrite Hf in Hf'. injection Hf' as <- <-. contradiction.
  - rewrite Hset in Hset'. discriminate.
  - rewrite Hadd. simpl. split; [reflexivity|].
    assert (cur' = cur ∧ hist' = hist) as [-> ->]
      by (split; congruence).
    exists doc, entry. split; [reflexivity|]. split; [exact Hs|].
    split; [exact Ha|]. intros Hshort. rewrite Ha.
    by apply analyze_short_window.
Qed.

(** X26. Every document of a run is signed with the same updater name,
    the one of the environment when it is set and not empty and the
    system label otherwise, never the empty string, and with the fixed
    updater id. *)
Theorem main_updater_identity w :
  updaterNameOf w ≠ []
  ∧ (∀ c s, GITHUB_ACTOR w = Some (c :: s) → updaterNameOf w = c :: s)
  ∧ (GITHUB_ACTOR w = None ∨ GITHUB_ACTOR w = Some [] →
     updaterNameOf w = lit "GitHub Actions System Automation")
  ∧ (∀ doc, SetLatest doc ∈ writes (main w) →
            LatestDoc.updaterName doc = updaterNameOf w
            ∧ LatestDoc.updaterUID doc = lit "system-gh-actions")
  ∧ (∀ entry, AddHistory entry ∈ writes (main w) →
              HistoryDoc.updaterName entry = updaterNameOf w
              ∧ HistoryDoc.updaterUID entry = lit "system-gh-actions").
Proof.
  split; [by apply or_else_nonempty|].
  split; [intros c s Ha; unfold updaterNameOf; by rewrite Ha|].
  split; [intros [Ha | Ha]; unfold updaterNameOf; by rewrite Ha|].
  unfold main, updaterNameOf.
  destruct (getFirestoreInstance w) as [stop | []]; simpl.
  { split; intros x Hin; by apply elem_of_nil in Hin. }
  destruct (tryMain_cases w (or_else (GITHUB_ACTOR w) default_actor))
    as [(e & _ & ->) | [(cur & hist & _ & _ & ->)
        | (cur & hist & doc0 & _ & _ & _ & Hn & Hu & _ & _ & _
           & [(e & _ & ->) | (entry0 & _ & _ & Hen & Heu & _ & _ & _
                              & ->)])]];
    [| | |destruct (add_history w entry0)]; simpl;
    (split; intros x Hin;
     repeat (apply elem_of_cons in Hin as [Hin | Hin];
             [try discriminate; injection Hin as ->; auto|]);
     by apply elem_of_nil in Hin).
Qed.

End MainMore.

Lemma calm_world_snapshot : SetLatest calm_doc ∈ writes (main calm_world).
Proof.
  assert (Hrun : writes (main calm_world)
                 = [SetLatest calm_doc; AddHistory calm_entry])
    by reflexivity.
  rewrite Hrun. left.
Qed.

Lemma main_returned_shape_witness :
  ∃ cur hist doc entry,
    fetched calm_world = inr (cur, hist)
    ∧ writes (main calm_world) = [SetLatest doc; AddHistory entry]
    ∧ set_latest calm_world doc = inr tt
    ∧ add_history calm_world entry = inr tt
    ∧ LatestDoc.analysisData doc
      = analyzeEarthquakeData (Math_exp_approx calm_world)
          (clock calm_world)
          (mergedEvents calm_world cur hist)
    ∧ LatestDoc.totalEvents doc
      = Z.of_nat (length (mergedEvents calm_world cur hist))
    ∧ (0 < LatestDoc.totalEvents doc)%Z
    ∧ HistoryDoc.eventCount entry = Some (LatestDoc.totalEvents doc)
    ∧ HistoryDoc.updateTime entry = LatestDoc.updateTime doc
    ∧ HistoryDoc.updaterName entry = LatestDoc.updaterName doc
    ∧ HistoryDoc.status entry = status_success.
Proof. apply (main_returned_shape calm_world). reflexivity. Defined.

Lemma main_failure_before_write_witness :
  ∃ error,
    writes (main barren_world)
    = [AddHistory (failedEntry barren_world (updaterNameOf barren_world)
                     error)]
    ∧ exit (main barren_world) ≠ Returned
    ∧ (fetched barren_world = inl error
       ∨ error = Error no_events_message
         ∧ ∃ xmls, fetched barren_world = inr xmls).
Proof.
  apply (main_failure_before_write barren_world); [reflexivity|].
  right. exists (catalogOf []), None. split; reflexivity.
Defined.

Lemma main_snapshot_guard_witness :
  ∃ cur hist rest,
    fetched calm_world = inr (cur, hist)
    ∧ writes (main calm_world) = SetLatest calm_doc :: rest
    ∧ (∀ doc', SetLatest doc' ∉ rest)
    ∧ mergedEvents calm_world cur hist ≠ []
    ∧ LatestDoc.analysisData calm_doc
      = analyzeEarthquakeData (Math_exp_approx calm_world)
          (clock calm_world)
          (mergedEvents calm_world cur hist)
    ∧ LatestDoc.totalEvents calm_doc
      = Z.of_nat (length (mergedEvents calm_world cur hist))
    ∧ LatestDoc.disclaimer calm_doc = disclaimer_text.
Proof.
  apply (main_snapshot_guard calm_world calm_doc). exact calm_world_snapshot.
Defined.

Lemma main_failure_logged_witness :
  ∃ error,
    last (writes (main barren_world))
    = Some (AddHistory (failedEntry barren_world
                          (updaterNameOf barren_world) error))
    ∧ HistoryDoc.status
        (failedEntry barren_world (updaterNameOf barren_world) error)
      = status_failed
    ∧ (∃ m, HistoryDoc.errorMessage
              (failedEntry barren_world (updaterNameOf barren_world) error)
            = Some m
            ∧ m ≠ []
            ∧ (message error ≠ [] → m = message error)
            ∧ (message error = [] → m = lit "未知錯誤"))
    ∧ (add_history barren_world
         (failedEntry barren_world (updaterNameOf barren_world) error)
       = inr tt →
       exit (main barren_world) = Exit1)
    ∧ (∀ e, add_history barren_world
              (failedEntry barren_world (updaterNameOf barren_world) error)
            = inl e →
            exit (main barren_world) = Rejected e).
Proof.
  apply (main_failure_logged barren_world); [reflexivity | discriminate].
Defined.

Lemma main_succeeds_witness : exit (main calm_world) = Returned.
Proof.
  apply (main_succeeds calm_world (catalogOf [node_without_location])
           (Some {| Data := None |})); try reflexivity.
  discriminate.
Defined.
